(** * A model of the JACK/ALSA sound block of i3status-rust (src/blocks/jack.rs)

    Text is modelled as Stdlib [string] (ASCII characters); Rust's Unicode
    whitespace is restricted to its ASCII members.  External collaborators
    (the JACK client library, the [amixer] command, the alsactl pipe, the
    session bus, the task channel) are inputs of the model. *)

From Stdlib Require Import String Ascii List Bool ZArith NArith Lia.
Import ListNotations.
Open Scope string_scope.

(** ** Rust string helpers used by [get_info] *)

Module RustStr.

(** [char::is_whitespace] on ASCII: U+0009..U+000D and U+0020. *)
Definition is_whitespace (c : ascii) : bool :=
  let n := nat_of_ascii c in ((9 <=? n) && (n <=? 13))%nat || (n =? 32)%nat.

Fixpoint drop_while (p : ascii -> bool) (l : list ascii) : list ascii :=
  match l with
  | [] => []
  | c :: l' => if p c then drop_while p l' else l
  end.

(** [str::trim_matches]: strip matching characters from both ends. *)
Definition trim_matches (p : ascii -> bool) (s : string) : string :=
  string_of_list_ascii
    (rev (drop_while p (rev (drop_while p (list_ascii_of_string s))))).

(** [str::trim] *)
Definition trim (s : string) : string := trim_matches is_whitespace s.

(** [str::split_inclusive('\n')]: pieces keep their terminator; no empty
    trailing piece. *)
Fixpoint split_inclusive_nl (cur : list ascii) (l : list ascii)
  : list (list ascii) :=
  match l with
  | [] => match cur with [] => [] | _ => [rev cur] end
  | c :: l' =>
      if Ascii.eqb c "010"%char
      then rev (c :: cur) :: split_inclusive_nl [] l'
      else split_inclusive_nl (c :: cur) l'
  end.

Definition strip_suffix_char (c : ascii) (l : list ascii) : option (list ascii) :=
  match rev l with
  | d :: r => if Ascii.eqb c d then Some (rev r) else None
  | [] => None
  end.

(** [str::lines]: split at "\n", a "\r\n" counting as one line ending. *)
Definition lines (s : string) : list string :=
  map (fun piece =>
         string_of_list_ascii
           match strip_suffix_char "010"%char piece with
           | None => piece
           | Some p =>
               match strip_suffix_char "013"%char p with
               | None => p
               | Some p' => p'
               end
           end)
      (split_inclusive_nl [] (list_ascii_of_string s)).

(** [Iterator::last] *)
Fixpoint last_opt {A} (l : list A) : option A :=
  match l with
  | [] => None
  | [x] => Some x
  | _ :: l' => last_opt l'
  end.

(** [str::split_whitespace]: maximal non-empty runs of non-whitespace. *)
Fixpoint split_ws_aux (cur : list ascii) (l : list ascii) : list string :=
  match l with
  | [] => match cur with [] => [] | _ => [string_of_list_ascii (rev cur)] end
  | c :: l' =>
      if is_whitespace c
      then match cur with
           | [] => split_ws_aux [] l'
           | _ => string_of_list_ascii (rev cur) :: split_ws_aux [] l'
           end
      else split_ws_aux (c :: cur) l'
  end.

Definition split_whitespace (s : string) : list string :=
  split_ws_aux [] (list_ascii_of_string s).

(** [str::starts_with(char)] *)
Definition starts_with (c : ascii) (s : string) : bool :=
  match s with
  | String d _ => Ascii.eqb c d
  | EmptyString => false
  end.

(** [str::contains(&str)] *)
Fixpoint contains (sub s : string) : bool :=
  prefix sub s ||
  match s with
  | String _ s' => contains sub s'
  | EmptyString => false
  end.

Definition u32_max : N := 4294967295.

Definition digit_val (c : ascii) : option N :=
  let n := nat_of_ascii c in
  if ((48 <=? n) && (n <=? 57))%nat then Some (N.of_nat (n - 48)) else None.

(** The digit loop of [u32::from_str]: checked multiply-add, failing on a
    non-digit or on overflow. *)
Fixpoint parse_digits (acc : N) (s : string) : option N :=
  match s with
  | EmptyString => Some acc
  | String c s' =>
      match digit_val c with
      | None => None
      | Some d =>
          let acc' := (acc * 10 + d)%N in
          if (acc' <=? u32_max)%N then parse_digits acc' s' else None
      end
  end.

(** [str::parse::<u32>]: empty input, a lone sign, a non-digit or an
    overflow is an error; one leading '+' is accepted. *)
Definition parse_u32 (s : string) : option N :=
  match s with
  | EmptyString => None
  | String c rest =>
      if Ascii.eqb c "+"%char
      then match rest with
           | EmptyString => None
           | _ => parse_digits 0 rest
           end
      else parse_digits 0 s
  end.

End RustStr.
Import RustStr.

(** ** Errors and the device state *)

(** [block_error("sound", msg)] values of [crate::errors]. *)
Inductive Error : Type :=
| BlockError (block : string) (message : string).

Inductive Result (A : Type) : Type :=
| Ok (a : A)
| Err (e : Error).
Arguments Ok {A} a.
Arguments Err {A} e.

(** [struct JackSoundDevice] *)
Record JackSoundDevice : Type := mkJackSoundDevice {
  name : string;
  volume : N;
  muted : bool;
  jack_running : bool;
  jack_capturing : bool;
  jack_rolling : bool
}.

Definition set_volume (v : N) (d : JackSoundDevice) :=
  mkJackSoundDevice d.(name) v d.(muted) d.(jack_running) d.(jack_capturing)
    d.(jack_rolling).
Definition set_muted (m : bool) (d : JackSoundDevice) :=
  mkJackSoundDevice d.(name) d.(volume) m d.(jack_running) d.(jack_capturing)
    d.(jack_rolling).
Definition set_jack_running (b : bool) (d : JackSoundDevice) :=
  mkJackSoundDevice d.(name) d.(volume) d.(muted) b d.(jack_capturing)
    d.(jack_rolling).
Definition set_jack_capturing (b : bool) (d : JackSoundDevice) :=
  mkJackSoundDevice d.(name) d.(volume) d.(muted) d.(jack_running) b
    d.(jack_rolling).
Definition set_jack_rolling (b : bool) (d : JackSoundDevice) :=
  mkJackSoundDevice d.(name) d.(volume) d.(muted) d.(jack_running)
    d.(jack_capturing) b.

(** ** A state-and-error monad for [&mut self] methods returning [Result] *)

Definition Dev (A : Type) : Type :=
  JackSoundDevice -> JackSoundDevice * Result A.

Definition ret {A} (a : A) : Dev A := fun d => (d, Ok a).
Definition bind {A B} (m : Dev A) (k : A -> Dev B) : Dev B :=
  fun d => match m d with
           | (d', Ok a) => k a d'
           | (d', Err e) => (d', Err e)
           end.
Definition get_self : Dev JackSoundDevice := fun d => (d, Ok d).
Definition modify (f : JackSoundDevice -> JackSoundDevice) : Dev unit :=
  fun d => (f d, Ok tt).
Definition throw {A} (e : Error) : Dev A := fun d => (d, Err e).

Notation "x <- m ;; k" := (bind m (fun x => k))
  (at level 61, m at next level, right associativity).
Notation "m ;; k" := (bind m (fun _ => k)) (at level 61, right associativity).

(** [ResultExt::block_error] / [OptionExt::block_error] followed by [?]. *)
Definition block_error {A} (o : option A) (msg : string) : Dev A :=
  match o with
  | Some a => ret a
  | None => throw (BlockError "sound" msg)
  end.

(** ** The JACK client library, as seen by [get_info] *)

(** A connected [jack::Client]: the transport state its
    [jack_transport_query] reports and the names of its registered ports. *)
Record JackClient : Type := mkJackClient {
  transport_state : N;
  port_names : list string
}.

(** [jack_sys::jack_transport_state_t] enumerators. *)
Definition JackTransportStopped : N := 0.
Definition JackTransportRolling : N := 1.
Definition JackTransportLooping : N := 2.
Definition JackTransportStarting : N := 3.
Definition JackTransportNetStarting : N := 4.

Definition jack_transport_query (c : JackClient) : N := c.(transport_state).

Definition port_by_name (c : JackClient) (n : string) : option string :=
  find (String.eqb n) c.(port_names).

(** The outside world of one [get_info] call: the outcome of
    [jack::Client::new("rusty_client", NO_START_SERVER)] ([None] when no
    server accepts the connection) and the stdout of [amixer get <name>]
    ([None] when the command cannot be run). *)
Record Env : Type := mkEnv {
  client_new : option JackClient;
  amixer_get : string -> option string
}.

(** [const FILTER: &[char] = &['[', ']', '%']] *)
Definition FILTER (c : ascii) : bool :=
  Ascii.eqb c "["%char || Ascii.eqb c "]"%char || Ascii.eqb c "%"%char.

(** The [last] vector of [get_info]: bracketed tokens without "dB", with
    [FILTER] characters trimmed from both ends. *)
Definition bracket_token (x : string) : bool :=
  starts_with "["%char x && negb (contains "dB" x).

Definition filtered_tokens (last_line : string) : list string :=
  map (trim_matches FILTER)
    (filter bracket_token (split_whitespace last_line)).

(** [JackSoundDevice::get_info] *)
Definition get_info (env : Env) : Dev unit :=
  modify (set_jack_capturing false) ;;
  modify (set_jack_running false) ;;
  modify (set_jack_rolling false) ;;
  match env.(client_new) with
  | Some client =>
      modify (set_jack_rolling
                (N.eqb (jack_transport_query client) JackTransportRolling)) ;;
      modify (set_jack_running true) ;;
      match port_by_name client "jack_capture:input1" with
      | Some _ => modify (set_jack_capturing true)
      | None => ret tt
      end
  | None => ret tt
  end ;;
  self <- get_self ;;
  output <- block_error (option_map trim (env.(amixer_get) self.(name)))
              "could not run amixer to get sound info" ;;
  last_line <- block_error (last_opt (lines output)) "could not get sound info" ;;
  let last := filtered_tokens last_line in
  v0 <- block_error (nth_error last 0) "could not get volume" ;;
  v <- block_error (parse_u32 v0) "could not parse volume to u32" ;;
  modify (set_volume v) ;;
  modify (set_muted match nth_error last 1 with
                    | Some m => String.eqb m "off"
                    | None => false
                    end) ;;
  ret tt.

(** [JackSoundDevice::new] *)
Definition JackSoundDevice_new (env : Env) (n : string)
  : Result JackSoundDevice :=
  let sd := mkJackSoundDevice n 0 false false false false in
  match get_info env sd with
  | (sd', Ok _) => Ok sd'
  | (_, Err e) => Err e
  end.

Definition env_amixer (out : string) (client : option JackClient) : Env :=
  mkEnv client (fun _ => Some out).

Definition dev0 := mkJackSoundDevice "Master" 7 true true true true.

(** ** A decomposition of [get_info] used by the proofs

    [probe] is the first half of [get_info] (the JACK part, on [self]);
    [mixer_info] the second half (the [amixer] part, as a pure result). *)

Definition probe (env : Env) (d : JackSoundDevice) : JackSoundDevice :=
  let d0 := set_jack_rolling false (set_jack_running false
              (set_jack_capturing false d)) in
  match env.(client_new) with
  | Some client =>
      let d1 := set_jack_running true (set_jack_rolling
                  (N.eqb (jack_transport_query client) JackTransportRolling) d0) in
      match port_by_name client "jack_capture:input1" with
      | Some _ => set_jack_capturing true d1
      | None => d1
      end
  | None => d0
  end.

Definition mixer_info (out : option string) : Result (N * bool) :=
  match option_map trim out with
  | None => Err (BlockError "sound" "could not run amixer to get sound info")
  | Some output =>
      match last_opt (lines output) with
      | None => Err (BlockError "sound" "could not get sound info")
      | Some last_line =>
          let last := filtered_tokens last_line in
          match nth_error last 0 with
          | None => Err (BlockError "sound" "could not get volume")
          | Some v0 =>
              match parse_u32 v0 with
              | None => Err (BlockError "sound" "could not parse volume to u32")
              | Some v =>
                  Ok (v, match nth_error last 1 with
                         | Some m => String.eqb m "off"
                         | None => false
                         end)
              end
          end
      end
  end.

(** The three JACK flags after [probe], read off the connection outcome. *)
Definition probe_flags (client : option JackClient) : bool * bool * bool :=
  match client with
  | Some c =>
      (true, N.eqb (jack_transport_query c) JackTransportRolling,
       match port_by_name c "jack_capture:input1" with
       | Some _ => true
       | None => false
       end)
  | None => (false, false, false)
  end.

(** ** Decimal digit strings *)

Definition is_digit (c : ascii) : bool :=
  match digit_val c with Some _ => true | None => false end.

Fixpoint all_digits (s : string) : bool :=
  match s with
  | EmptyString => true
  | String c s' => is_digit c && all_digits s'
  end.

(** The value of a decimal digit string, read most significant digit first. *)
Fixpoint dec_value (acc : N) (s : string) : N :=
  match s with
  | EmptyString => acc
  | String c s' =>
      dec_value (acc * 10 + match digit_val c with Some d => d | None => 0 end) s'
  end.

(** ** Sample [amixer] lines *)

Definition line1 := "Mono: Playback 50 [80%] [on]".
Definition line2 := "Mono: Playback 0 [0%] [off]".

(** ** The listener threads of [monitor] *)

(** [std::time::Duration] *)
Record Duration : Type := Duration_new { secs : N; nanos : N }.

(** [Duration::new(0, 250_000_000)] *)
Definition quarter_second : Duration := Duration_new 0 250000000.

(** Instants are milliseconds on one clock. *)
Definition duration_ms (d : Duration) : Z :=
  Z.of_N (d.(secs) * 1000 + d.(nanos) / 1000000).

Module Scheduler.
(** [crate::scheduler::Task] *)
Record Task : Type := mkTask { id : string; update_time : Z }.
End Scheduler.
Import Scheduler (Task, mkTask).

(** What a listener thread does, in order. *)
Inductive Action : Type :=
| Send (t : Task)
| Sleep (d : Duration)
| Panic (msg : string).

Definition unwrap_err_msg := "called `Result::unwrap()` on an `Err` value".

(** *** The alsactl watcher (first [thread::spawn] of [monitor]) *)

(** The result of [monitor.read(&mut buffer)]: [Ok(n)] or an I/O error. *)
Inductive ReadResult : Type :=
| ReadOk (n : nat)
| ReadErr.

Definition is_ok (r : ReadResult) : bool :=
  match r with ReadOk _ => true | ReadErr => false end.

(** One iteration's observation: what [read] returned, and the instant it
    returned at. *)
Record AlsaObs : Type := mkAlsaObs { read_result : ReadResult; read_at : Z }.

(** One pass of the [loop]: [send(...).unwrap()] panics once the channel's
    receiver ([rx_alive] false) is gone; the boolean says whether the loop
    goes on. *)
Definition alsa_iteration (id0 : string) (rx_alive : Z -> bool) (o : AlsaObs)
  : list Action * bool :=
  if is_ok o.(read_result) then
    if rx_alive o.(read_at)
    then ([Send (mkTask id0 o.(read_at)); Sleep quarter_second], true)
    else ([Panic unwrap_err_msg], false)
  else ([Sleep quarter_second], true).

Fixpoint alsa_loop (id0 : string) (rx_alive : Z -> bool) (obs : list AlsaObs)
  : list Action :=
  match obs with
  | [] => []
  | o :: rest =>
      let '(acts, cont) := alsa_iteration id0 rx_alive o in
      (acts ++ (if cont then alsa_loop id0 rx_alive rest else []))%list
  end.

(** The thread: spawning [stdbuf -oL alsactl monitor] may fail ([expect]). *)
Definition alsa_thread (id0 : string) (rx_alive : Z -> bool)
    (spawned : bool) (obs : list AlsaObs) : list Action :=
  if spawned then alsa_loop id0 rx_alive obs
  else [Panic "Failed to start alsactl monitor"].

(** *** The session-bus watcher (second [thread::spawn] of [monitor]) *)

(** The connection's incoming queue: the arrival instants of the matching
    messages not taken yet, oldest first.  [c.incoming(timeout).next()]
    hands over the oldest queued message, waiting up to [timeout] ms for
    one to arrive; it returns the message (if any), the instant it returns
    at, and the queue left behind. *)
Definition incoming_next (timeout_ms : Z) (now : Z) (q : list Z)
  : option Z * Z * list Z :=
  match q with
  | a :: rest =>
      if (a <=? now + timeout_ms)%Z then (Some a, Z.max now a, rest)
      else (None, (now + timeout_ms)%Z, q)
  | [] => (None, (now + timeout_ms)%Z, [])
  end.

(** One pass of the [loop]: the actions, the queue left, and the instant
    the next pass starts at ([None] when the thread panicked). *)
Definition dbus_iteration (id2 : string) (rx_alive : Z -> bool) (now : Z)
    (q : list Z) : list Action * list Z * option Z :=
  let '(m, t, q') := incoming_next 1000 now q in
  match m with
  | Some _ =>
      if rx_alive t
      then ([Send (mkTask id2 t); Sleep quarter_second], q',
            Some (t + duration_ms quarter_second)%Z)
      else ([Panic unwrap_err_msg], q', None)
  | None =>
      ([Sleep quarter_second], q', Some (t + duration_ms quarter_second)%Z)
  end.

(** [fuel] passes of the [loop]; the actions and the queue left. *)
Fixpoint dbus_loop (id2 : string) (rx_alive : Z -> bool) (fuel : nat)
    (now : Z) (q : list Z) : list Action * list Z :=
  match fuel with
  | O => ([], q)
  | S f =>
      let '(acts, q', next) := dbus_iteration id2 rx_alive now q in
      match next with
      | Some now' =>
          let '(acts', rest) := dbus_loop id2 rx_alive f now' q' in
          ((acts ++ acts')%list, rest)
      | None => (acts, q')
      end
  end.

(** The thread: [Connection::new_session().unwrap()] and the [add_match]
    calls may fail. *)
Definition dbus_thread (id2 : string) (rx_alive : Z -> bool) (bus_ok : bool)
    (fuel : nat) (now : Z) (q : list Z) : list Action :=
  if bus_ok then fst (dbus_loop id2 rx_alive fuel now q)
  else [Panic unwrap_err_msg].

Fixpoint count_sends (acts : list Action) : nat :=
  match acts with
  | [] => O
  | Send _ :: r => S (count_sends r)
  | _ :: r => count_sends r
  end.

(** ** The alsactl watcher as the spec words it *)

(** One iteration as the spec words it: a request when the read delivered
    at least one byte, then a 250 ms sleep. *)
Definition alsa_claimed_iteration (id0 : string) (o : AlsaObs) : list Action :=
  ((match o.(read_result) with
    | ReadOk (S _) => [Send (mkTask id0 o.(read_at))]
    | _ => []
    end) ++ [Sleep quarter_second])%list.

Definition sends_succeed (rx_alive : Z -> bool) (obs : list AlsaObs) : Prop :=
  forall o, In o obs -> is_ok o.(read_result) = true -> rx_alive o.(read_at) = true.

(** ** The block: [Jack::new], its identity and [monitor] *)

(** Lowercase hex digit of [0 <= n < 16]. *)
Definition hex_digit (n : Z) : ascii :=
  ascii_of_nat (Z.to_nat (if (n <? 10)%Z then 48 + n else 87 + n)%Z).

Fixpoint hex_acc (n : nat) (u : Z) (acc : string) : string :=
  match n with
  | O => acc
  | S n' => hex_acc n' (u / 16)%Z (String (hex_digit (u mod 16)%Z) acc)
  end.

(** [Uuid::to_simple().to_string()]: the 128-bit value as 32 lowercase hex
    digits, most significant first. *)
Definition uuid_simple (u : Z) : string := hex_acc 32 u EmptyString.

(** [SoundDevice::monitor]'s outside world: the channel's receiver, the
    alsactl pipe and the session bus. *)
Record MonitorEnv : Type := mkMonitorEnv {
  rx_alive : Z -> bool;
  alsactl_spawned : bool;
  alsa_reads : list AlsaObs;
  bus_ok : bool;
  bus_passes : nat;
  bus_start : Z;
  bus_queue : list Z
}.

(** [JackSoundDevice::monitor]: the actions of the two spawned threads (the
    pactl watcher is commented out in the source). *)
Definition monitor (id : string) (menv : MonitorEnv) : list Action * list Action :=
  let id0 := id in
  let id2 := id in
  (alsa_thread id0 menv.(rx_alive) menv.(alsactl_spawned) menv.(alsa_reads),
   dbus_thread id2 menv.(rx_alive) menv.(bus_ok) menv.(bus_passes)
     menv.(bus_start) menv.(bus_queue)).

(** [struct Jack], without its presentation fields ([text], [config]). *)
Record Jack : Type := mkJack {
  id : string;
  device : JackSoundDevice;
  show_volume_when_muted : bool
}.

(** [Jack::new]: [uuid] is the value [Uuid::new_v4()] draws; the result
    carries the block and what its listener threads do. *)
Definition Jack_new (block_name : option string) (show : bool) (uuid : Z)
    (env : Env) (menv : MonitorEnv) : Result (Jack * (list Action * list Action)) :=
  let id := uuid_simple uuid in
  match JackSoundDevice_new env
          (match block_name with Some n => n | None => "Master" end) with
  | Err e => Err e
  | Ok device =>
      let sound := mkJack id device show in
      Ok (sound, monitor id menv)
  end.

Definition Block_id (j : Jack) : string := j.(id).

(** ** Reading the identity back *)

Definition hex_val (c : ascii) : Z :=
  let n := Z.of_nat (nat_of_ascii c) in
  if (n <? 58)%Z then (n - 48)%Z else (n - 87)%Z.

Fixpoint of_hex (a : Z) (s : string) : Z :=
  match s with
  | EmptyString => a
  | String c s' => of_hex (a * 16 + hex_val c)%Z s'
  end.

(** A value [Uuid::new_v4()] can return: 128 bits with version nibble 4
    (bits 76..79) and variant bits 10 (bits 62..63). *)
Definition is_v4 (u : Z) : bool :=
  (0 <=? u)%Z && (u <? 2 ^ 128)%Z &&
  (Z.shiftr u 76 mod 16 =? 4)%Z && (Z.shiftr u 62 mod 4 =? 2)%Z.

(** A v4 UUID: 01234567-89ab-4def-8123-456789abcdef. *)
Definition uuid_v4_ex : Z := of_hex 0 "0123456789ab4def8123456789abcdef".

(** The identities carried by the requests among some actions. *)
Fixpoint task_ids (acts : list Action) : list string :=
  match acts with
  | [] => []
  | Send t :: r => Scheduler.id t :: task_ids r
  | _ :: r => task_ids r
  end.

Definition menv_ex : MonitorEnv :=
  mkMonitorEnv (fun _ => true) true [mkAlsaObs (ReadOk 5) 0; mkAlsaObs ReadErr 250]
    true 2 0 [100%Z].

(** ** Sample inputs *)

Definition client_stopped := mkJackClient JackTransportStarting ["system:playback_1"].

(** ** Rendering: [Jack::display] and [Block::update] *)

(** [widget::State] *)
Inductive State : Type := Idle | Info | Good | Warning | Critical.

(** The values [display] last handed to its [TextWidget] through
    [set_icon], [set_text] and [set_state]. *)
Record TextWidget : Type := mkTextWidget {
  w_icon : string;
  w_text : string;
  w_state : State
}.

Definition set_icon (n : string) (w : TextWidget) :=
  mkTextWidget n w.(w_text) w.(w_state).
Definition set_text (t : string) (w : TextWidget) :=
  mkTextWidget w.(w_icon) t w.(w_state).
Definition set_state (s : State) (w : TextWidget) :=
  mkTextWidget w.(w_icon) w.(w_text) s.

(** [crate::config::Config], through its [icons] map ([HashMap::get]). *)
Record Config : Type := mkConfig { icons : string -> option string }.

(** [REC_ICON], [PLAY_ICON], [STOP_ICON]: a space, one Font Awesome
    private-use character in UTF-8 (U+F111, U+F04B, U+F04D), a space. *)
Definition REC_ICON : string :=
  String " " (String "239" (String "132" (String "145" " "))).
Definition PLAY_ICON : string :=
  String " " (String "239" (String "129" (String "139" " "))).
Definition STOP_ICON : string :=
  String " " (String "239" (String "129" (String "141" " "))).

(** The decimal digits of [n], least significant first ([fuel] digits at
    most). *)
Fixpoint dec_rev (fuel : nat) (n : N) : list ascii :=
  match fuel with
  | O => []
  | S f =>
      ascii_of_N (48 + n mod 10) ::
      (if (n <? 10)%N then [] else dec_rev f (n / 10))
  end.

(** [Display for u32]: a u32 has at most ten decimal digits. *)
Definition u32_to_string (n : N) : string :=
  string_of_list_ascii (rev (dec_rev 10 n)).

(** [format!("{:02}", n)]: zero-padded to width 2. *)
Definition fmt02 (n : N) : string :=
  let s := u32_to_string n in
  if (String.length s <? 2)%nat then "0" ++ s else s.

(** The [match volume] of the unmuted branch. *)
Definition volume_icon (v : N) : string :=
  if (v <=? 20)%N then "volume_empty"
  else if (v <=? 70)%N then "volume_half"
  else "volume_full".

(** [Jack::display]: refresh the device, then set icon, text and state. *)
Definition display (env : Env) (config : Config) (j : Jack) (w : TextWidget)
  : Jack * TextWidget * Result unit :=
  let '(dev, r) := get_info env j.(device) in
  let j' := mkJack j.(id) dev j.(show_volume_when_muted) in
  match r with
  | Err e => (j', w, Err e)
  | Ok _ =>
      let volume := dev.(volume) in
      let running := dev.(jack_running) in
      let rolling := dev.(jack_rolling) in
      let capturing := dev.(jack_capturing) in
      if dev.(muted) then
        let w1 := set_icon "volume_empty" w in
        match config.(icons) "volume_muted" with
        | None => (j', w1, Err (BlockError "sound" "cannot find icon"))
        | Some icon =>
            let w2 := if j.(show_volume_when_muted)
                      then set_text (icon ++ " " ++ fmt02 volume ++ "%") w1
                      else set_text icon w1 in
            (j', set_state Warning w2, Ok tt)
        end
      else
        let w1 := set_icon (volume_icon volume) w in
        let w2 := set_text
                    ((if running then "JACK" else "ALSA") ++ " " ++
                     fmt02 volume ++ "% " ++
                     (if capturing then REC_ICON else "") ++
                     (if running then (if rolling then PLAY_ICON else STOP_ICON)
                      else "")) w1 in
        (j', set_state Idle w2, Ok tt)
  end.

(** [Block::update]: [display()?; Ok(None)]. *)
Definition block_update (env : Env) (config : Config) (j : Jack) (w : TextWidget)
  : Jack * TextWidget * Result (option Duration) :=
  let '(j', w', r) := display env config j w in
  (j', w', match r with Ok _ => Ok None | Err e => Err e end).

(** [SoundConfig] with its serde defaults ([name: None],
    [show_volume_when_muted: false]). *)
Record SoundConfig : Type := mkSoundConfig {
  cfg_name : option string;
  cfg_show_volume_when_muted : bool
}.
Definition SoundConfig_default : SoundConfig := mkSoundConfig None false.

(** Words joined by single spaces (used to write [amixer] lines). *)
Fixpoint join_ws (ws : list string) : string :=
  match ws with
  | [] => ""
  | [w] => w
  | w :: r => w ++ " " ++ join_ws r
  end.

Definition no_ws (s : string) : Prop :=
  Forall (fun c => is_whitespace c = false) (list_ascii_of_string s).

(** The last line [amixer get] prints for a mono control:
    "Mono: Playback R [V%] [DdB] [SW]". *)
Definition amixer_mono_line (raw v : N) (db sw : string) : string :=
  join_ws ["Mono:"; "Playback"; u32_to_string raw; "[" ++ u32_to_string v ++ "%]";
           "[" ++ db ++ "dB]"; "[" ++ sw ++ "]"].

Fixpoint spaces (k : nat) : string :=
  match k with O => "" | S k' => String " " (spaces k') end.

(** Lowercase hexadecimal digit. *)
Definition is_lower_hex (c : ascii) : bool :=
  let n := nat_of_ascii c in ((48 <=? n) && (n <=? 57))%nat || ((97 <=? n) && (n <=? 102))%nat.

(** The instants of the requests in a listener trace. *)
Fixpoint send_times (acts : list Action) : list Z :=
  match acts with
  | [] => []
  | Send t :: r => Scheduler.update_time t :: send_times r
  | _ :: r => send_times r
  end.

(** Instants no earlier than [lo], each at least [gap] after the one
    before. *)
Fixpoint spaced (gap lo : Z) (l : list Z) : Prop :=
  match l with
  | [] => True
  | t :: r => (lo <= t)%Z /\ spaced gap (t + gap) r
  end.

(** Every request is immediately followed by a 250 ms sleep. *)
Fixpoint send_then_sleep (acts : list Action) : Prop :=
  match acts with
  | [] => True
  | Send _ :: Sleep d :: r => d = quarter_second /\ send_then_sleep r
  | Send _ :: _ => False
  | _ :: r => send_then_sleep r
  end.

Fixpoint has_panic (acts : list Action) : bool :=
  match acts with
  | [] => false
  | Panic _ :: _ => true
  | _ :: r => has_panic r
  end.

(** Nothing follows a [Panic] in the trace. *)
Fixpoint panic_is_last (acts : list Action) : bool :=
  match acts with
  | [] => true
  | Panic _ :: r => match r with [] => true | _ => false end
  | _ :: r => panic_is_last r
  end.

(** * Theorems *)

(** ** Sample runs of [get_info] *)

Example get_info_ex1 :
  get_info (env_amixer "Simple mixer control 'Master',0
  Mono: Playback 50 [80%] [on]" None) dev0
  = (mkJackSoundDevice "Master" 80 false false false false, Ok tt).
Proof. vm_compute. reflexivity. Qed.

Example get_info_ex2 :
  get_info (env_amixer "Mono: Playback 0 [0%] [-65.00dB] [off]
"
              (Some (mkJackClient 1 ["system:capture_1"; "jack_capture:input1"])))
    dev0
  = (mkJackSoundDevice "Master" 0 true true true true, Ok tt).
Proof. vm_compute. reflexivity. Qed.

(** ** The decomposition of [get_info] *)

Lemma get_info_eq : forall env d,
  get_info env d =
  let d1 := probe env d in
  match mixer_info (env.(amixer_get) d1.(name)) with
  | Ok (v, m) => (set_muted m (set_volume v d1), Ok tt)
  | Err e => (d1, Err e)
  end.
Proof.
  intros [client amixer] d.
  assert (Hname : (probe (mkEnv client amixer) d).(name) = d.(name))
    by (unfold probe; simpl; destruct client as [c|]; simpl;
        [destruct (port_by_name c "jack_capture:input1"); reflexivity
        | reflexivity]).
  cbv zeta. rewrite Hname.
  unfold get_info, mixer_info, probe, bind, modify, ret, get_self,
    block_error, throw; simpl.
  repeat match goal with
         | |- context [match ?x with Some _ => _ | None => _ end] =>
             destruct x; simpl
         end; reflexivity.
Qed.

Lemma probe_volume : forall env d, (probe env d).(volume) = d.(volume).
Proof.
  intros [[c|] a] d; unfold probe; simpl; try reflexivity.
  destruct (port_by_name c "jack_capture:input1"); reflexivity.
Qed.

Lemma probe_muted : forall env d, (probe env d).(muted) = d.(muted).
Proof.
  intros [[c|] a] d; unfold probe; simpl; try reflexivity.
  destruct (port_by_name c "jack_capture:input1"); reflexivity.
Qed.

Lemma probe_flags_eq : forall env d,
  let d' := probe env d in
  (d'.(jack_running), d'.(jack_rolling), d'.(jack_capturing))
  = probe_flags env.(client_new).
Proof.
  intros [[c|] a] d; unfold probe, probe_flags; simpl; try reflexivity.
  destruct (port_by_name c "jack_capture:input1"); reflexivity.
Qed.

(** Whatever the [amixer] part does, the JACK flags are those of [probe]. *)
Lemma get_info_flags : forall env d,
  let d' := fst (get_info env d) in
  (d'.(jack_running), d'.(jack_rolling), d'.(jack_capturing))
  = probe_flags env.(client_new).
Proof.
  intros env d. rewrite get_info_eq. cbv zeta.
  pose proof (probe_flags_eq env d) as H. cbv zeta in H.
  destruct (mixer_info _) as [[v m]|e]; exact H.
Qed.

Lemma probe_name : forall env d, (probe env d).(name) = d.(name).
Proof.
  intros [[c|] a] d; unfold probe; simpl; try reflexivity.
  destruct (port_by_name c "jack_capture:input1"); reflexivity.
Qed.

Lemma get_info_eq' : forall env d,
  get_info env d =
  match mixer_info (env.(amixer_get) d.(name)) with
  | Ok (v, m) => (set_muted m (set_volume v (probe env d)), Ok tt)
  | Err e => (probe env d, Err e)
  end.
Proof.
  intros env d. rewrite get_info_eq. cbv zeta. rewrite probe_name. reflexivity.
Qed.

(** ** Theorems on [get_info] *)

(** C5: when the connection to the JACK server succeeds, [jack_rolling] is
    set to true exactly when the transport query reports
    [JackTransportRolling]; stopped, looping, starting or any other value
    all give false. *)
Theorem get_info_rolling_iff_transport_rolling :
  forall env d client,
  env.(client_new) = Some client ->
  ((fst (get_info env d)).(jack_rolling) = true <->
   jack_transport_query client = JackTransportRolling).
Proof.
  intros env d client Hc.
  pose proof (get_info_flags env d) as H. cbv zeta in H.
  rewrite Hc in H. unfold probe_flags in H. injection H as _ Hr _.
  rewrite Hr, N.eqb_eq. reflexivity.
Qed.

(** C6: when the connection attempt fails, [get_info] leaves all three JACK
    flags false whatever they were before, and the failure is not an error:
    the call's result is decided by the [amixer] part alone. *)
Theorem get_info_no_server_flags_false :
  forall env d,
  env.(client_new) = None ->
  let d' := fst (get_info env d) in
  d'.(jack_running) = false /\ d'.(jack_rolling) = false /\
  d'.(jack_capturing) = false /\
  snd (get_info env d) =
    match mixer_info (env.(amixer_get) d.(name)) with
    | Ok _ => Ok tt
    | Err e => Err e
    end.
Proof.
  intros env d Hc. cbv zeta.
  pose proof (get_info_flags env d) as H. cbv zeta in H.
  rewrite Hc in H. simpl in H. injection H as H1 H2 H3.
  rewrite H1, H2, H3. repeat split.
  rewrite get_info_eq'. destruct (mixer_info _) as [[v m]|e]; reflexivity.
Qed.

(** C9: after any call of [get_info], successful or not, [jack_rolling] and
    [jack_capturing] are only true when [jack_running] is true. *)
Theorem get_info_flags_need_running :
  forall env d,
  let d' := fst (get_info env d) in
  (d'.(jack_rolling) = true -> d'.(jack_running) = true) /\
  (d'.(jack_capturing) = true -> d'.(jack_running) = true).
Proof.
  intros env d. cbv zeta.
  pose proof (get_info_flags env d) as H. cbv zeta in H.
  destruct (fst (get_info env d)) as [n v m r c ro]; simpl in *.
  destruct (client_new env) as [cl|]; unfold probe_flags in H;
    injection H as -> -> ->; split; intro; try reflexivity; discriminate.
Qed.

(** C10: a failing call of [get_info] leaves [volume], [muted] (and [name])
    as they were; only the three JACK flags may change. *)
Theorem get_info_error_frame :
  forall env d e,
  snd (get_info env d) = Err e ->
  let d' := fst (get_info env d) in
  d'.(volume) = d.(volume) /\ d'.(muted) = d.(muted) /\ d'.(name) = d.(name).
Proof.
  intros env d e. rewrite get_info_eq'.
  destruct (mixer_info _) as [[v m]|e']; simpl; [discriminate|].
  intros _. rewrite probe_volume, probe_muted, probe_name. auto.
Qed.

(** C7: when the last line of the [amixer] output yields a volume that
    parses, [get_info] succeeds, and [muted] is true exactly when the second
    filtered token is "off"; a missing second token gives [muted = false]. *)
Theorem get_info_muted_second_token :
  forall env d out last_line v0 v,
  env.(amixer_get) d.(name) = Some out ->
  last_opt (lines (trim out)) = Some last_line ->
  nth_error (filtered_tokens last_line) 0 = Some v0 ->
  parse_u32 v0 = Some v ->
  snd (get_info env d) = Ok tt /\
  ((fst (get_info env d)).(muted) = true <->
   nth_error (filtered_tokens last_line) 1 = Some "off") /\
  (nth_error (filtered_tokens last_line) 1 = None ->
   (fst (get_info env d)).(muted) = false).
Proof.
  intros env d out ll v0 v Ho Hl H0 Hp.
  rewrite get_info_eq'. unfold mixer_info. rewrite Ho. cbn [option_map].
  rewrite Hl, H0, Hp. cbn [fst snd muted set_muted].
  split; [reflexivity|].
  destruct (nth_error (filtered_tokens ll) 1) as [m|]; split.
  - rewrite String.eqb_eq. split; [intros ->|intros [= ->]]; reflexivity.
  - discriminate.
  - split; discriminate.
  - reflexivity.
Qed.

(** ** Lemmas on decimal digit strings *)

Lemma dec_value_ge : forall s acc, (acc <= dec_value acc s)%N.
Proof.
  induction s as [|c s IH]; intros acc; simpl; [lia|].
  specialize (IH (acc * 10 + match digit_val c with Some d => d | None => 0 end)%N).
  lia.
Qed.

Lemma parse_digits_dec : forall s acc,
  all_digits s = true -> (dec_value acc s <= u32_max)%N ->
  parse_digits acc s = Some (dec_value acc s).
Proof.
  induction s as [|c s IH]; intros acc Hd Hm; simpl in *; [reflexivity|].
  apply andb_prop in Hd as [Hc Hs]. unfold is_digit in Hc.
  destruct (digit_val c) as [d|]; [|discriminate].
  pose proof (dec_value_ge s (acc * 10 + d)%N).
  replace ((acc * 10 + d <=? u32_max)%N) with true by (symmetry; apply N.leb_le; lia).
  apply IH; assumption.
Qed.

Lemma parse_u32_dec : forall s,
  s <> EmptyString -> all_digits s = true -> (dec_value 0 s <= u32_max)%N ->
  parse_u32 s = Some (dec_value 0 s).
Proof.
  intros [|c s'] Hne Hd Hm; [congruence|].
  unfold parse_u32.
  destruct (Ascii.eqb c "+"%char) eqn:E.
  - apply Ascii.eqb_eq in E. subst c. discriminate.
  - apply parse_digits_dec; assumption.
Qed.

Lemma digit_not_filter : forall c, is_digit c = true -> FILTER c = false.
Proof.
  intros [[] [] [] [] [] [] [] []] H; vm_compute in H |- *;
    first [reflexivity | discriminate].
Qed.

Lemma list_ascii_of_string_app : forall s1 s2,
  list_ascii_of_string (s1 ++ s2) = (list_ascii_of_string s1 ++ list_ascii_of_string s2)%list.
Proof.
  induction s1 as [|c s1 IH]; intros s2; simpl; [reflexivity|].
  rewrite IH. reflexivity.
Qed.

Lemma drop_while_stop : forall p l,
  match l with [] => True | c :: _ => p c = false end ->
  drop_while p l = l.
Proof. intros p [|c l] H; simpl; [reflexivity|]. rewrite H. reflexivity. Qed.

Lemma all_digits_Forall : forall s,
  all_digits s = true -> Forall (fun c => FILTER c = false) (list_ascii_of_string s).
Proof.
  induction s as [|c s IH]; intros H; simpl in *; constructor.
  - apply digit_not_filter. apply andb_prop in H. tauto.
  - apply IH. apply andb_prop in H. tauto.
Qed.

Lemma head_not_filter : forall l,
  Forall (fun c => FILTER c = false) l ->
  match l with [] => True | c :: _ => FILTER c = false end.
Proof. intros [|c l] H; [exact I | inversion H; assumption]. Qed.

(** [trim_matches(FILTER)] turns "[N%]" into "N" for a digit string N. *)
Lemma trim_filter_percent_token : forall s,
  s <> EmptyString -> all_digits s = true ->
  trim_matches FILTER ("[" ++ s ++ "%]") = s.
Proof.
  intros s Hne Hd. unfold trim_matches.
  pose proof (all_digits_Forall s Hd) as HF.
  change (list_ascii_of_string ("[" ++ s ++ "%]"))
    with ("["%char :: list_ascii_of_string (s ++ "%]")).
  rewrite list_ascii_of_string_app. simpl drop_while.
  destruct (list_ascii_of_string s) as [|c l] eqn:E.
  { destruct s; [congruence|discriminate]. }
  inversion HF as [|c' l' Hc Hl]; subst.
  simpl. rewrite Hc, app_comm_cons, rev_app_distr. simpl.
  change (rev l ++ [c])%list with (rev (c :: l)).
  rewrite drop_while_stop by (apply head_not_filter, Forall_rev, HF).
  rewrite rev_involutive, <- E. apply string_of_list_ascii_of_string.
Qed.

(** ** Theorems on the volume token *)

(** C4 (as amended): when the first token of the last [amixer] line that
    starts with '[' and has no "dB" is "[N%]" for a non-empty decimal digit
    string N whose value fits in a u32, [get_info] succeeds and sets
    [volume] to that value; the outputs "Mono: Playback 50 [80%] [on]" and
    "Mono: Playback 0 [0%] [off]" give volume 80 unmuted and volume 0
    muted. *)
Theorem get_info_volume_first_percent_token :
  (forall env d out last_line s,
    env.(amixer_get) d.(name) = Some out ->
    last_opt (lines (trim out)) = Some last_line ->
    nth_error (filter bracket_token (split_whitespace last_line)) 0
      = Some ("[" ++ s ++ "%]") ->
    s <> EmptyString -> all_digits s = true -> (dec_value 0 s <= u32_max)%N ->
    snd (get_info env d) = Ok tt /\
    (fst (get_info env d)).(volume) = dec_value 0 s) /\
  (forall client d,
    let r := get_info (env_amixer line1 client) d in
    snd r = Ok tt /\ (fst r).(volume) = 80%N /\ (fst r).(muted) = false) /\
  (forall client d,
    let r := get_info (env_amixer line2 client) d in
    snd r = Ok tt /\ (fst r).(volume) = 0%N /\ (fst r).(muted) = true).
Proof.
  split; [|split].
  - intros env d out ll s Ho Hl Ht Hne Hd Hm.
    rewrite get_info_eq'. unfold mixer_info. rewrite Ho. cbn [option_map].
    rewrite Hl. unfold filtered_tokens. rewrite nth_error_map, Ht.
    cbn [option_map]. rewrite trim_filter_percent_token by assumption.
    rewrite parse_u32_dec by assumption. split; reflexivity.
  - intros client d. cbv zeta. rewrite get_info_eq'.
    replace (mixer_info _) with (@Ok (N * bool) (80%N, false))
      by (vm_compute; reflexivity).
    repeat split.
  - intros client d. cbv zeta. rewrite get_info_eq'.
    replace (mixer_info _) with (@Ok (N * bool) (0%N, true))
      by (vm_compute; reflexivity).
    repeat split.
Qed.

Lemma get_info_volume_first_percent_token_witness :
  snd (get_info (env_amixer line1 None) dev0) = Ok tt /\
  (fst (get_info (env_amixer line1 None) dev0)).(volume) = 80%N.
Proof.
  apply (proj1 get_info_volume_first_percent_token
           (env_amixer line1 None) dev0 line1 line1 "80");
    first [vm_compute; reflexivity | discriminate | vm_compute; congruence].
Defined.

(** C4 counterexample: a percentage token that is not the first bracketed
    token is not taken as the volume ("[on] [80%]" fails to parse "on"), and
    a percentage beyond the u32 range is an error. *)
Lemma get_info_volume_counterexample :
  snd (get_info (env_amixer "Mono: Playback [on] [80%]" None) dev0)
    = Err (BlockError "sound" "could not parse volume to u32") /\
  snd (get_info (env_amixer "Mono: Playback 50 [4294967296%] [on]" None) dev0)
    = Err (BlockError "sound" "could not parse volume to u32").
Proof. split; vm_compute; reflexivity. Qed.

(** C1 (as amended): when the last [amixer] line has no token that starts
    with '[' and lacks "dB", or the first such token, with '[', ']' and '%'
    stripped from its ends, is not a u32, [get_info] fails with a parse
    error; [volume], [muted] and [name] keep their values while the three
    JACK flags are those set by the server probe that runs first. *)
Theorem get_info_volume_parse_error :
  forall env d out last_line,
  env.(amixer_get) d.(name) = Some out ->
  last_opt (lines (trim out)) = Some last_line ->
  (nth_error (filtered_tokens last_line) 0 = None \/
   exists v0, nth_error (filtered_tokens last_line) 0 = Some v0 /\
              parse_u32 v0 = None) ->
  let d' := fst (get_info env d) in
  (snd (get_info env d) = Err (BlockError "sound" "could not get volume") \/
   snd (get_info env d) = Err (BlockError "sound" "could not parse volume to u32")) /\
  d'.(volume) = d.(volume) /\ d'.(muted) = d.(muted) /\ d'.(name) = d.(name) /\
  (d'.(jack_running), d'.(jack_rolling), d'.(jack_capturing))
    = probe_flags env.(client_new).
Proof.
  intros env d out ll Ho Hl Hv. cbv zeta.
  pose proof (get_info_flags env d) as Hf. cbv zeta in Hf.
  rewrite get_info_eq' in *. unfold mixer_info in *. rewrite Ho in *.
  cbn [option_map] in *. rewrite Hl in *.
  destruct Hv as [H0 | [v0 [H0 Hp]]]; rewrite H0 in *;
    [|rewrite Hp in *]; cbn [fst snd] in *;
    rewrite probe_volume, probe_muted, probe_name; auto.
Qed.

Lemma get_info_volume_parse_error_witness :
  let env := env_amixer "Mono: Playback [on]" None in
  let d' := fst (get_info env dev0) in
  (snd (get_info env dev0) = Err (BlockError "sound" "could not get volume") \/
   snd (get_info env dev0)
     = Err (BlockError "sound" "could not parse volume to u32")) /\
  d'.(volume) = dev0.(volume) /\ d'.(muted) = dev0.(muted) /\
  d'.(name) = dev0.(name) /\
  (d'.(jack_running), d'.(jack_rolling), d'.(jack_capturing))
    = probe_flags env.(client_new).
Proof.
  apply (get_info_volume_parse_error _ dev0 "Mono: Playback [on]"
           "Mono: Playback [on]").
  - reflexivity.
  - vm_compute. reflexivity.
  - right. exists "on". split; vm_compute; reflexivity.
Defined.

(** C1 counterexample: with a JACK server seen running before the call and
    gone now, a line without a volume token fails but clears [jack_running]
    (and the other flags); and a bracketed integer without '%' ("[80]") is
    parsed as a volume rather than rejected. *)
Lemma get_info_parse_error_counterexample :
  let d := mkJackSoundDevice "Master" 50 false true true true in
  snd (get_info (env_amixer "Mono: Playback" None) d)
    = Err (BlockError "sound" "could not get volume") /\
  fst (get_info (env_amixer "Mono: Playback" None) d)
    = mkJackSoundDevice "Master" 50 false false false false /\
  fst (get_info (env_amixer "Mono: Playback" None) d) <> d /\
  get_info (env_amixer "Mono: Playback 50 [80] [on]" None) d
    = (mkJackSoundDevice "Master" 80 false false false false, Ok tt).
Proof.
  cbv zeta. split; [|split; [|split]]; vm_compute; try reflexivity.
  discriminate.
Qed.

Example dbus_loop_ex :
  dbus_loop "x" (fun _ => true) 3 0%Z [100; 100; 5000]%Z
  = ([Send (mkTask "x" 100); Sleep quarter_second;
      Send (mkTask "x" 350); Sleep quarter_second;
      Sleep quarter_second], [5000%Z]).
Proof. reflexivity. Qed.

(** ** Theorems on the alsactl watcher *)

Lemma alsa_loop_app : forall id0 rx pre rest,
  sends_succeed rx pre ->
  alsa_loop id0 rx (pre ++ rest) = (alsa_loop id0 rx pre ++ alsa_loop id0 rx rest)%list.
Proof.
  induction pre as [|o pre IH]; intros rest Hs; [reflexivity|].
  simpl. unfold alsa_iteration.
  destruct (is_ok (read_result o)) eqn:Ho.
  - rewrite (Hs o (or_introl eq_refl) Ho). simpl.
    rewrite IH by (intros p Hp; apply Hs; right; exact Hp). reflexivity.
  - simpl. rewrite IH by (intros p Hp; apply Hs; right; exact Hp). reflexivity.
Qed.

(** C3 (as amended): in every iteration of the alsactl watcher, a read that
    delivers at least one byte is followed by one Refresh Request and a read
    that fails by none; either way the thread then sleeps 250 ms and reads
    again.  The loop only ends when a send fails because the channel's
    receiver is gone: the [unwrap] then panics and the thread stops. *)
Theorem alsa_loop_request_per_read :
  (forall id0 rx obs,
    (forall o, In o obs -> o.(read_result) <> ReadOk 0) ->
    sends_succeed rx obs ->
    alsa_loop id0 rx obs = flat_map (alsa_claimed_iteration id0) obs) /\
  (forall id0 rx pre o post,
    sends_succeed rx pre ->
    is_ok o.(read_result) = true -> rx o.(read_at) = false ->
    alsa_loop id0 rx (pre ++ o :: post)
    = (alsa_loop id0 rx pre ++ [Panic unwrap_err_msg])%list).
Proof.
  split.
  - intros id0 rx obs. induction obs as [|o obs IH]; intros H0 Hs; [reflexivity|].
    simpl. unfold alsa_iteration, alsa_claimed_iteration.
    rewrite IH; [| intros p Hp; apply H0; right; exact Hp
                 | intros p Hp; apply Hs; right; exact Hp].
    pose proof (H0 o (or_introl eq_refl)) as Hn.
    destruct (read_result o) as [[|n]|] eqn:Ho; [congruence| |reflexivity].
    rewrite (Hs o (or_introl eq_refl)) by (rewrite Ho; reflexivity).
    reflexivity.
  - intros id0 rx pre o post Hs Hok Hrx.
    rewrite alsa_loop_app by assumption. simpl. unfold alsa_iteration.
    rewrite Hok, Hrx. reflexivity.
Qed.

Lemma alsa_loop_request_per_read_witness :
  alsa_loop "w" (fun _ => true)
    [mkAlsaObs (ReadOk 12) 0; mkAlsaObs ReadErr 250]
  = flat_map (alsa_claimed_iteration "w")
      [mkAlsaObs (ReadOk 12) 0; mkAlsaObs ReadErr 250].
Proof.
  apply (proj1 alsa_loop_request_per_read).
  - intros o [<-|[<-|[]]]; discriminate.
  - intros o [<-|[<-|[]]]; reflexivity.
Defined.

(** C3 counterexample: a read returning [Ok(0)] (end of stream, the monitor
    process gone) still sends a request, and a failed send ends the loop
    with a panic. *)
Lemma alsa_loop_counterexample :
  alsa_loop "x" (fun _ => true) [mkAlsaObs (ReadOk 0) 0]
    = [Send (mkTask "x" 0); Sleep quarter_second] /\
  flat_map (alsa_claimed_iteration "x") [mkAlsaObs (ReadOk 0) 0]
    = [Sleep quarter_second] /\
  alsa_loop "x" (fun _ => false)
    [mkAlsaObs (ReadOk 8) 0; mkAlsaObs (ReadOk 8) 250]
    = [Panic unwrap_err_msg].
Proof. repeat split. Qed.

(** ** Theorems on the session-bus watcher *)

Lemma incoming_next_spec : forall now q,
  let '(m, t, q') := incoming_next 1000 now q in
  (now <= t <= now + 1000)%Z /\
  match m with Some a => q = a :: q' | None => q' = q end.
Proof.
  intros now [|a q]; simpl; [split; [lia | reflexivity]|].
  destruct (a <=? now + 1000)%Z eqn:E; [apply Z.leb_le in E | ];
    (split; [lia | reflexivity]).
Qed.

Lemma count_sends_app : forall a b,
  count_sends (a ++ b) = (count_sends a + count_sends b)%nat.
Proof.
  induction a as [|[t|d|msg] a IH]; intros b; simpl; try rewrite IH; reflexivity.
Qed.

(** C2 (as amended): each pass of the bus watcher waits at most 1 second
    for the next matching message and takes at most one message.  Having
    taken none, it sends nothing and sleeps 250 ms; having taken one, it
    sends one Refresh Request and sleeps 250 ms while the channel's
    receiver is alive, and otherwise the [unwrap] of the send panics and
    the thread stops without sleeping.  Messages are not coalesced: those
    still queued are taken by the following passes, one request each, so
    that (with the receiver alive) requests sent plus messages still queued
    always equal the messages received. *)
Theorem dbus_loop_one_message_per_pass :
  (forall now q,
    let '(m, t, q') := incoming_next 1000 now q in
    (now <= t <= now + 1000)%Z /\
    match m with Some a => q = a :: q' | None => q' = q end) /\
  (forall id2 rx fuel now q,
    dbus_loop id2 rx (S fuel) now q =
    let '(m, t, q') := incoming_next 1000 now q in
    match m with
    | Some _ =>
        if rx t
        then let '(acts', rest) := dbus_loop id2 rx fuel (t + 250)%Z q' in
             ([Send (mkTask id2 t); Sleep quarter_second] ++ acts', rest)%list
        else ([Panic unwrap_err_msg], q')
    | None =>
        let '(acts', rest) := dbus_loop id2 rx fuel (t + 250)%Z q' in
        ([Sleep quarter_second] ++ acts', rest)%list
    end) /\
  (forall id2 fuel now q,
    let '(acts, rest) := dbus_loop id2 (fun _ => true) fuel now q in
    (count_sends acts + length rest)%nat = length q).
Proof.
  split; [exact incoming_next_spec | split].
  - intros id2 rx fuel now q. cbn [dbus_loop]. unfold dbus_iteration.
    change (duration_ms quarter_second) with 250%Z.
    destruct (incoming_next 1000 now q) as [[[a|] t] q']; [destruct (rx t)|];
      try destruct (dbus_loop id2 rx fuel (t + 250)%Z q'); reflexivity.
  - intros id2 fuel. induction fuel as [|fuel IH]; intros now q;
      [simpl; reflexivity|].
    cbn [dbus_loop]. unfold dbus_iteration.
    pose proof (incoming_next_spec now q) as Hs.
    destruct (incoming_next 1000 now q) as [[[a|] t] q']; destruct Hs as [_ Hq];
      specialize (IH (t + duration_ms quarter_second)%Z q');
      destruct (dbus_loop id2 (fun _ => true) fuel _ q') as [acts' rest];
      rewrite count_sends_app; simpl; subst; simpl; lia.
Qed.

Lemma dbus_loop_one_message_per_pass_witness :
  let '(acts, rest) := dbus_loop "w" (fun _ => true) 4 0%Z [10; 20; 30]%Z in
  (count_sends acts + length rest)%nat = length [10; 20; 30]%Z.
Proof.
  exact (proj2 (proj2 dbus_loop_one_message_per_pass) "w" 4 0%Z [10; 20; 30]%Z).
Defined.

(** C2 counterexample: two signals that both arrive at 100 ms, inside the
    first wait window, give two Refresh Requests, one per pass, instead of
    one for the window. *)
Lemma dbus_loop_counterexample :
  incoming_next 1000 0%Z [100; 100]%Z = (Some 100%Z, 100%Z, [100%Z]) /\
  fst (dbus_loop "x" (fun _ => true) 2 0%Z [100; 100]%Z)
  = [Send (mkTask "x" 100); Sleep quarter_second;
     Send (mkTask "x" 350); Sleep quarter_second] /\
  count_sends (fst (dbus_loop "x" (fun _ => true) 2 0%Z [100; 100]%Z)) = 2%nat.
Proof. repeat split. Qed.

Lemma hex_val_digit : forall n, (0 <= n < 16)%Z -> hex_val (hex_digit n) = n.
Proof.
  intros n Hn. unfold hex_val, hex_digit.
  destruct (n <? 10)%Z eqn:E; [apply Z.ltb_lt in E | apply Z.ltb_ge in E];
    rewrite nat_ascii_embedding by lia; rewrite Z2Nat.id by lia;
    [replace (48 + n <? 58)%Z with true by (symmetry; apply Z.ltb_lt; lia)
    |replace (87 + n <? 58)%Z with false by (symmetry; apply Z.ltb_ge; lia)];
    lia.
Qed.

Lemma of_hex_acc : forall n u a acc,
  of_hex a (hex_acc n u acc) = of_hex (a * 16 ^ Z.of_nat n + u mod 16 ^ Z.of_nat n)%Z acc.
Proof.
  induction n as [|n IH]; intros u a acc.
  - simpl. f_equal. rewrite Z.mod_1_r. lia.
  - simpl hex_acc. rewrite IH. simpl of_hex.
    rewrite hex_val_digit by (apply Z.mod_pos_bound; lia).
    f_equal.
    replace (Z.pow_pos 16 (Pos.of_succ_nat n)) with (16 * 16 ^ Z.of_nat n)%Z
      by (rewrite <- Z.pow_succ_r, <- Nat2Z.inj_succ by lia; reflexivity).
    assert (0 < 16 ^ Z.of_nat n)%Z by (apply Z.pow_pos_nonneg; lia).
    rewrite (Z.rem_mul_r u 16 (16 ^ Z.of_nat n)) by lia.
    lia.
Qed.

Lemma uuid_simple_of_hex : forall u,
  (0 <= u < 2 ^ 128)%Z -> of_hex 0 (uuid_simple u) = u.
Proof.
  intros u Hu. unfold uuid_simple. rewrite of_hex_acc. simpl of_hex.
  replace (16 ^ Z.of_nat 32)%Z with (2 ^ 128)%Z by reflexivity.
  rewrite Z.mod_small by lia. lia.
Qed.

(** ** Theorems on the identity *)

Lemma task_ids_app : forall a b,
  task_ids (a ++ b) = (task_ids a ++ task_ids b)%list.
Proof.
  induction a as [|[t|d|msg] a IH]; intros b; simpl; try rewrite IH; reflexivity.
Qed.

Lemma alsa_loop_ids : forall id0 rx obs,
  Forall (fun i => i = id0) (task_ids (alsa_loop id0 rx obs)).
Proof.
  induction obs as [|o obs IH]; simpl; [constructor|].
  unfold alsa_iteration.
  destruct (is_ok (read_result o)); [destruct (rx (read_at o))|];
    simpl; repeat constructor; assumption.
Qed.

Lemma dbus_loop_ids : forall id2 rx fuel now q,
  Forall (fun i => i = id2) (task_ids (fst (dbus_loop id2 rx fuel now q))).
Proof.
  induction fuel as [|fuel IH]; intros now q; simpl; [constructor|].
  unfold dbus_iteration.
  destruct (incoming_next 1000 now q) as [[[a|] t] q'];
    [destruct (rx t)|];
    try (simpl; repeat constructor; fail);
    (destruct (dbus_loop id2 rx fuel _ q') as [acts' rest] eqn:E;
     simpl; repeat constructor;
     match goal with
     | |- context [task_ids acts'] =>
         let H := fresh in
         pose proof (IH (t + duration_ms quarter_second)%Z q') as H;
         rewrite E in H; exact H
     end).
Qed.

Lemma monitor_ids : forall id menv,
  Forall (fun i => i = id)
    (task_ids (fst (monitor id menv)) ++ task_ids (snd (monitor id menv))).
Proof.
  intros id menv. apply Forall_app. unfold monitor; simpl. split.
  - unfold alsa_thread. destruct (alsactl_spawned menv);
      [apply alsa_loop_ids | repeat constructor].
  - unfold dbus_thread. destruct (bus_ok menv);
      [apply dbus_loop_ids | repeat constructor].
Qed.

Lemma uuid_simple_inj : forall u1 u2,
  (0 <= u1 < 2 ^ 128)%Z -> (0 <= u2 < 2 ^ 128)%Z ->
  uuid_simple u1 = uuid_simple u2 -> u1 = u2.
Proof.
  intros u1 u2 H1 H2 E.
  rewrite <- (uuid_simple_of_hex u1 H1), <- (uuid_simple_of_hex u2 H2), E.
  reflexivity.
Qed.

(** C8 (as amended): every Refresh Request the listener threads of a
    constructed block send carries the identity minted in [Jack::new],
    which is the block's [id]; [Block::update] never changes it, whether
    it succeeds or fails; and the identity
    of an instance built from another UUID draw [uuid'] equals it exactly
    when [uuid'] is the same draw, so identities differ between instances
    exactly when their random v4 UUIDs differ. *)
Theorem jack_identity_stable :
  forall block_name show uuid env menv j tr0 tr2,
  Jack_new block_name show uuid env menv = Ok (j, (tr0, tr2)) ->
  j.(id) = uuid_simple uuid /\
  Block_id j = j.(id) /\
  Forall (fun i => i = j.(id)) (task_ids tr0 ++ task_ids tr2) /\
  (forall env' config w, (fst (fst (block_update env' config j w))).(id) = j.(id)) /\
  (forall uuid', (0 <= uuid < 2 ^ 128)%Z -> (0 <= uuid' < 2 ^ 128)%Z ->
     (uuid_simple uuid' = j.(id) <-> uuid' = uuid)).
Proof.
  intros block_name show uuid env menv j tr0 tr2 H.
  unfold Jack_new in H.
  destruct (JackSoundDevice_new env _) as [dev|e]; [|discriminate].
  injection H as <- H0 H2. simpl.
  split; [reflexivity | split; [reflexivity | split; [| split]]].
  - pose proof (monitor_ids (uuid_simple uuid) menv) as Hm.
    unfold monitor in Hm. simpl in Hm. rewrite H0, H2 in Hm. exact Hm.
  - intros env' config w. unfold block_update, display. simpl.
    destruct (get_info env' dev) as [dev' [[]|e]]; [|reflexivity].
    destruct (muted dev'); [destruct (icons config "volume_muted")|]; reflexivity.
  - intros uuid' Hu Hu'. split; [apply uuid_simple_inj; assumption | intros ->; reflexivity].
Qed.

Lemma jack_identity_stable_witness :
  exists j tr0 tr2,
  Jack_new None false uuid_v4_ex (env_amixer line1 None) menv_ex = Ok (j, (tr0, tr2)) /\
  j.(id) = uuid_simple uuid_v4_ex /\
  Block_id j = j.(id) /\
  Forall (fun i => i = j.(id)) (task_ids tr0 ++ task_ids tr2) /\
  (forall env' config w, (fst (fst (block_update env' config j w))).(id) = j.(id)) /\
  (forall uuid', (0 <= uuid_v4_ex < 2 ^ 128)%Z -> (0 <= uuid' < 2 ^ 128)%Z ->
     (uuid_simple uuid' = j.(id) <-> uuid' = uuid_v4_ex)).
Proof.
  eexists; eexists; eexists.
  assert (H : Jack_new None false uuid_v4_ex (env_amixer line1 None) menv_ex
              = Ok (mkJack (uuid_simple uuid_v4_ex)
                      (mkJackSoundDevice "Master" 80 false false false false) false,
                    ([Send (mkTask (uuid_simple uuid_v4_ex) 0); Sleep quarter_second;
                      Sleep quarter_second],
                     [Send (mkTask (uuid_simple uuid_v4_ex) 100); Sleep quarter_second;
                      Sleep quarter_second])))
    by (vm_compute; reflexivity).
  split; [exact H|].
  exact (jack_identity_stable None false uuid_v4_ex _ menv_ex _ _ _ H).
Defined.

(** C8 counterexample: two blocks whose [Uuid::new_v4()] draws coincide,
    on a value [new_v4] can return, get the same identity; nothing in the
    code keeps identities apart besides the randomness of the draw. *)
Lemma jack_identity_counterexample :
  is_v4 uuid_v4_ex = true /\
  match Jack_new None false uuid_v4_ex (env_amixer line1 None) menv_ex,
        Jack_new (Some "Master") true uuid_v4_ex (env_amixer line2 None) menv_ex with
  | Ok (j1, _), Ok (j2, _) =>
      Block_id j1 = Block_id j2 /\
      Block_id j1 = "0123456789ab4def8123456789abcdef"
  | _, _ => False
  end.
Proof. vm_compute. repeat split. Qed.

(** ** Witnesses *)

Lemma get_info_rolling_iff_transport_rolling_witness :
  (fst (get_info (env_amixer line1 (Some client_stopped)) dev0)).(jack_rolling) = true
  <-> jack_transport_query client_stopped = JackTransportRolling.
Proof.
  apply (get_info_rolling_iff_transport_rolling _ dev0 client_stopped).
  reflexivity.
Defined.

Lemma get_info_no_server_flags_false_witness :
  let env := env_amixer "Mono: Playback" None in
  let d' := fst (get_info env dev0) in
  d'.(jack_running) = false /\ d'.(jack_rolling) = false /\
  d'.(jack_capturing) = false /\
  snd (get_info env dev0) =
    match mixer_info (env.(amixer_get) dev0.(name)) with
    | Ok _ => Ok tt
    | Err e => Err e
    end.
Proof.
  apply (get_info_no_server_flags_false (env_amixer "Mono: Playback" None) dev0).
  reflexivity.
Defined.

Lemma get_info_error_frame_witness :
  let env := env_amixer "Mono: Playback [x%]" (Some client_stopped) in
  let d' := fst (get_info env dev0) in
  d'.(volume) = dev0.(volume) /\ d'.(muted) = dev0.(muted) /\
  d'.(name) = dev0.(name).
Proof.
  apply (get_info_error_frame _ dev0
           (BlockError "sound" "could not parse volume to u32")).
  vm_compute. reflexivity.
Defined.

Lemma get_info_muted_second_token_witness :
  let env := env_amixer "Mono: Playback 50 [80%]" None in
  snd (get_info env dev0) = Ok tt /\
  ((fst (get_info env dev0)).(muted) = true <->
   nth_error (filtered_tokens "Mono: Playback 50 [80%]") 1 = Some "off") /\
  (nth_error (filtered_tokens "Mono: Playback 50 [80%]") 1 = None ->
   (fst (get_info env dev0)).(muted) = false).
Proof.
  apply (get_info_muted_second_token _ dev0 "Mono: Playback 50 [80%]"
           "Mono: Playback 50 [80%]" "80" 80);
    vm_compute; reflexivity.
Defined.

Example fmt02_ex :
  fmt02 5 = "05" /\ fmt02 0 = "00" /\ fmt02 80 = "80" /\ fmt02 100 = "100" /\
  u32_to_string 4294967295 = "4294967295".
Proof. vm_compute. repeat split. Qed.

(** ** Lemmas on decimal formatting *)

Lemma digit_char : forall k, (k < 10)%N ->
  digit_val (ascii_of_N (48 + k)) = Some k /\
  is_digit (ascii_of_N (48 + k)) = true /\
  is_whitespace (ascii_of_N (48 + k)) = false /\
  FILTER (ascii_of_N (48 + k)) = false.
Proof.
  intros k Hk.
  assert (k = 0 \/ k = 1 \/ k = 2 \/ k = 3 \/ k = 4 \/ k = 5 \/ k = 6 \/
          k = 7 \/ k = 8 \/ k = 9)%N as Hc by lia.
  repeat destruct Hc as [-> | Hc]; [..| subst k];
    vm_compute; repeat split.
Qed.

Lemma dec_value_app : forall s1 s2 a,
  dec_value a (s1 ++ s2) = dec_value (dec_value a s1) s2.
Proof. induction s1 as [|c s1 IH]; intros s2 a; simpl; [reflexivity | apply IH]. Qed.

Lemma string_of_list_ascii_app : forall l1 l2,
  string_of_list_ascii (l1 ++ l2) = string_of_list_ascii l1 ++ string_of_list_ascii l2.
Proof.
  induction l1 as [|c l1 IH]; intros l2; simpl; [reflexivity|]. rewrite IH. reflexivity.
Qed.

Lemma dec_rev_spec : forall f n, (n < 10 ^ N.of_nat f)%N ->
  dec_value 0 (string_of_list_ascii (rev (dec_rev f n))) = n /\
  Forall (fun c => is_digit c = true /\ is_whitespace c = false /\
                   FILTER c = false) (dec_rev f n).
Proof.
  induction f as [|f IH]; intros n Hn.
  - simpl in *. split; [lia | constructor].
  - cbn [dec_rev rev]. rewrite string_of_list_ascii_app, dec_value_app.
    assert (Hm : (n mod 10 < 10)%N) by (apply N.mod_lt; lia).
    destruct (digit_char (n mod 10) Hm) as (Hv & Hd & Hw & Hf).
    destruct (n <? 10)%N eqn:E.
    + apply N.ltb_lt in E. cbn [rev string_of_list_ascii dec_value app].
      rewrite Hv. split.
      * rewrite N.mod_small by lia. lia.
      * repeat constructor; assumption.
    + apply N.ltb_ge in E.
      assert (Hq : (n / 10 < 10 ^ N.of_nat f)%N).
      { apply N.Div0.div_lt_upper_bound.
        rewrite Nat2N.inj_succ, N.pow_succ_r' in Hn. lia. }
      destruct (IH (n / 10)%N Hq) as [IHv IHf].
      rewrite IHv. cbn [string_of_list_ascii dec_value]. rewrite Hv. split.
      * pose proof (N.div_mod n 10). lia.
      * constructor; [tauto | exact IHf].
Qed.

Lemma all_digits_of_list : forall l,
  Forall (fun c => is_digit c = true /\ is_whitespace c = false /\
                   FILTER c = false) l ->
  all_digits (string_of_list_ascii l) = true.
Proof.
  induction l as [|c l IH]; intros H; simpl; [reflexivity|].
  inversion H as [|? ? Hc Hl]; subst. rewrite (proj1 Hc), IH by exact Hl.
  reflexivity.
Qed.

Lemma u32_to_string_spec : forall n, (n <= u32_max)%N ->
  dec_value 0 (u32_to_string n) = n /\ all_digits (u32_to_string n) = true /\
  u32_to_string n <> EmptyString.
Proof.
  intros n Hn. unfold u32_to_string.
  assert (Hb : (n < 10 ^ N.of_nat 10)%N) by (unfold u32_max in Hn; simpl; lia).
  destruct (dec_rev_spec 10 n Hb) as [Hv Hf].
  split; [exact Hv|]. split.
  - apply all_digits_of_list, Forall_rev, Hf.
  - destruct (rev (dec_rev 10 n)) as [|c l] eqn:E; [|discriminate].
    apply (f_equal (@length ascii)) in E. rewrite length_rev in E.
    discriminate.
Qed.

(** X1: [format!("{:02}", n)] of a u32 is at least two characters long,
    made of decimal digits only, and [parse::<u32>] reads [n] back from it. *)
Theorem fmt02_parse_roundtrip : forall n,
  (n <= u32_max)%N ->
  (2 <= String.length (fmt02 n))%nat /\ all_digits (fmt02 n) = true /\
  parse_u32 (fmt02 n) = Some n.
Proof.
  intros n Hn. destruct (u32_to_string_spec n Hn) as (Hv & Hd & Hne).
  unfold fmt02.
  destruct (String.length (u32_to_string n) <? 2)%nat eqn:E.
  - change ("0" ++ u32_to_string n) with (String "0" (u32_to_string n)).
    assert (H0 : dec_value 0 (String "0" (u32_to_string n))
                 = dec_value 0 (u32_to_string n)) by reflexivity.
    assert (Hd0 : all_digits (String "0" (u32_to_string n)) = true)
      by (cbn [all_digits]; rewrite Hd; reflexivity).
    split; [destruct (u32_to_string n); [congruence | simpl; lia]|].
    split; [exact Hd0|].
    rewrite parse_u32_dec by (try discriminate; try rewrite H0, Hv; assumption).
    rewrite H0, Hv. reflexivity.
  - apply Nat.ltb_ge in E. split; [exact E|]. split; [exact Hd|].
    rewrite parse_u32_dec by (try rewrite Hv; assumption). rewrite Hv. reflexivity.
Qed.

Lemma fmt02_parse_roundtrip_witness :
  (2 <= String.length (fmt02 7))%nat /\ all_digits (fmt02 7) = true /\
  parse_u32 (fmt02 7) = Some 7%N.
Proof. apply fmt02_parse_roundtrip. vm_compute. discriminate. Defined.

(** ** Lemmas on tokenising [amixer] lines *)

Lemma split_ws_word : forall l cur,
  Forall (fun c => is_whitespace c = false) l ->
  split_ws_aux cur l =
  match (rev cur ++ l)%list with [] => [] | l' => [string_of_list_ascii l'] end.
Proof.
  induction l as [|c l IH]; intros cur H.
  - simpl. rewrite app_nil_r. destruct cur as [|c cur]; [reflexivity|].
    simpl. destruct (rev cur ++ [c])%list eqn:E; [|reflexivity].
    apply (f_equal (@length ascii)) in E. rewrite length_app in E. simpl in E. lia.
  - inversion H as [|? ? Hc Hl]; subst. simpl. rewrite Hc, IH by exact Hl.
    simpl. rewrite <- app_assoc. simpl.
    destruct (rev cur ++ c :: l)%list eqn:E; [|reflexivity].
    apply (f_equal (@length ascii)) in E. rewrite length_app in E. simpl in E. lia.
Qed.

Lemma split_ws_app : forall l1 l2 cur w,
  is_whitespace w = true ->
  split_ws_aux cur (l1 ++ w :: l2) = (split_ws_aux cur l1 ++ split_ws_aux [] l2)%list.
Proof.
  induction l1 as [|c l1 IH]; intros l2 cur w Hw.
  - simpl. rewrite Hw. destruct cur; reflexivity.
  - simpl. destruct (is_whitespace c); [destruct cur|]; simpl; rewrite (IH l2 _ w Hw);
      reflexivity.
Qed.

Lemma match_word : forall l : list ascii, l <> [] ->
  match l with [] => [] | c :: r => [string_of_list_ascii (c :: r)] end
  = [string_of_list_ascii l].
Proof. intros [|c l] H; [congruence | reflexivity]. Qed.

Lemma split_whitespace_join : forall ws,
  Forall (fun w => w <> EmptyString /\ no_ws w) ws ->
  split_whitespace (join_ws ws) = ws.
Proof.
  induction ws as [|w ws IH]; intros H; [reflexivity|].
  inversion H as [|? ? [Hne Hw] Hr]; subst.
  destruct ws as [|w' ws].
  - unfold split_whitespace. simpl join_ws.
    rewrite split_ws_word by exact Hw. simpl rev. simpl app.
    rewrite match_word by (destruct w; [congruence | discriminate]).
    rewrite string_of_list_ascii_of_string. reflexivity.
  - change (join_ws (w :: w' :: ws)) with (w ++ " " ++ join_ws (w' :: ws)).
    unfold split_whitespace in *.
    rewrite list_ascii_of_string_app.
    change (list_ascii_of_string (" " ++ join_ws (w' :: ws)))
      with (" "%char :: list_ascii_of_string (join_ws (w' :: ws))).
    rewrite split_ws_app by reflexivity. rewrite IH by exact Hr.
    rewrite split_ws_word by exact Hw. simpl rev. simpl app.
    rewrite match_word by (destruct w; [congruence | discriminate]).
    rewrite string_of_list_ascii_of_string. reflexivity.
Qed.

Lemma trim_matches_id : forall p l,
  match l with [] => True | c :: _ => p c = false end ->
  match rev l with [] => True | c :: _ => p c = false end ->
  trim_matches p (string_of_list_ascii l) = string_of_list_ascii l.
Proof.
  intros p l H1 H2. unfold trim_matches.
  rewrite list_ascii_of_string_of_list_ascii, (drop_while_stop p l H1),
    (drop_while_stop p (rev l) H2), rev_involutive. reflexivity.
Qed.

Lemma split_inclusive_nl_single : forall l cur,
  Forall (fun c => Ascii.eqb c "010"%char = false) l ->
  (rev cur ++ l)%list <> [] ->
  split_inclusive_nl cur l = [(rev cur ++ l)%list].
Proof.
  induction l as [|c l IH]; intros cur H Hne.
  - simpl. rewrite app_nil_r in *. destruct cur; [simpl in Hne; congruence|].
    reflexivity.
  - inversion H as [|? ? Hc Hl]; subst. simpl. rewrite Hc, IH by
      (try exact Hl; simpl; intros E; apply (f_equal (@length ascii)) in E;
       rewrite !length_app in E; simpl in E; lia).
    simpl. rewrite <- app_assoc. reflexivity.
Qed.

Lemma lines_single : forall l,
  l <> [] -> Forall (fun c => Ascii.eqb c "010"%char = false) l ->
  lines (string_of_list_ascii l) = [string_of_list_ascii l].
Proof.
  intros l Hne H. unfold lines.
  rewrite list_ascii_of_string_of_list_ascii, split_inclusive_nl_single
    by (try exact H; exact Hne).
  simpl. unfold strip_suffix_char.
  destruct (rev l) as [|d r] eqn:E; [reflexivity|].
  assert (Hd : In d l) by (apply in_rev; rewrite E; left; reflexivity).
  rewrite Forall_forall in H. specialize (H d Hd).
  rewrite Ascii.eqb_sym, H. reflexivity.
Qed.

Lemma ws_not_nl : forall c, is_whitespace c = false -> Ascii.eqb c "010"%char = false.
Proof.
  intros c H. destruct (Ascii.eqb_spec c "010"%char) as [->|]; [discriminate | reflexivity].
Qed.

Lemma digit_not_d : forall c, is_digit c = true -> Ascii.eqb c "d"%char = false.
Proof.
  intros [[] [] [] [] [] [] [] []] H; vm_compute in H |- *;
    first [reflexivity | discriminate].
Qed.

Lemma prefix_app : forall s t, prefix s (s ++ t) = true.
Proof.
  induction s as [|c s IH]; intros t; [destruct t; reflexivity|].
  simpl. destruct (ascii_dec c c); [apply IH | congruence].
Qed.

Lemma contains_app : forall sub a b, contains sub (a ++ sub ++ b) = true.
Proof.
  intros sub a b. induction a as [|c a IH].
  - destruct (sub ++ b) eqn:E; cbn [String.append contains];
      rewrite <- E, prefix_app; reflexivity.
  - cbn [String.append contains]. rewrite IH. apply orb_true_r.
Qed.

Lemma contains_dB_no_d : forall s,
  Forall (fun c => Ascii.eqb c "d"%char = false) (list_ascii_of_string s) ->
  contains "dB" s = false.
Proof.
  induction s as [|c s IH]; intros H; [reflexivity|].
  inversion H as [|? ? Hc Hl]; subst. cbn [contains prefix].
  destruct (ascii_dec "d"%char c) as [<-|]; [discriminate|].
  apply IH, Hl.
Qed.

Lemma filter_not_lbracket : forall c, FILTER c = false -> Ascii.eqb "["%char c = false.
Proof.
  intros c H. unfold FILTER in H. rewrite Ascii.eqb_sym.
  destruct (Ascii.eqb c "["%char); [discriminate | reflexivity].
Qed.

Lemma u32_to_string_chars : forall n, (n <= u32_max)%N ->
  Forall (fun c => is_digit c = true /\ is_whitespace c = false /\ FILTER c = false)
    (list_ascii_of_string (u32_to_string n)).
Proof.
  intros n Hn. unfold u32_to_string.
  assert (Hb : (n < 10 ^ N.of_nat 10)%N) by (unfold u32_max in Hn; simpl; lia).
  rewrite list_ascii_of_string_of_list_ascii.
  apply Forall_rev, (proj2 (dec_rev_spec 10 n Hb)).
Qed.

Lemma join_ws_Forall : forall (P : ascii -> Prop) ws,
  P " "%char -> Forall (fun w => Forall P (list_ascii_of_string w)) ws ->
  Forall P (list_ascii_of_string (join_ws ws)).
Proof.
  intros P ws Hs. induction ws as [|w ws IH]; intros H; [constructor|].
  inversion H as [|? ? Hw Hr]; subst.
  destruct ws as [|w' ws]; [exact Hw|].
  change (join_ws (w :: w' :: ws)) with (w ++ " " ++ join_ws (w' :: ws)).
  rewrite list_ascii_of_string_app.
  apply Forall_app; split; [exact Hw|]. constructor; [exact Hs | apply IH, Hr].
Qed.

Lemma string_app_assoc : forall a b c : string, (a ++ b) ++ c = a ++ b ++ c.
Proof. induction a as [|x a IH]; intros b c; simpl; [reflexivity | rewrite IH; reflexivity]. Qed.

Lemma join_ws_snoc : forall ws w, ws <> [] ->
  join_ws (ws ++ [w]) = join_ws ws ++ " " ++ w.
Proof.
  induction ws as [|x ws IH]; intros w Hne; [congruence|].
  destruct ws as [|y ws]; [reflexivity|].
  pose proof (IH w ltac:(discriminate)) as H. cbn [app] in H |- *.
  change (join_ws (x :: y :: (ws ++ [w])%list))
    with (x ++ " " ++ join_ws (y :: (ws ++ [w])%list)).
  rewrite H. change (join_ws (x :: y :: ws)) with (x ++ " " ++ join_ws (y :: ws)).
  rewrite !string_app_assoc. reflexivity.
Qed.

Lemma last_opt_snoc : forall {A} (l : list A) x, last_opt (l ++ [x]) = Some x.
Proof.
  intros A l x. induction l as [|y l IH]; [reflexivity|].
  simpl. rewrite IH. destruct (l ++ [x])%list eqn:E; [|reflexivity].
  destruct l; discriminate.
Qed.

Lemma split_inclusive_nl_last : forall l1 l2 cur,
  Forall (fun c => Ascii.eqb c "010"%char = false) l2 -> l2 <> [] ->
  exists X, split_inclusive_nl cur (l1 ++ "010"%char :: l2) = (X ++ [l2])%list.
Proof.
  induction l1 as [|c l1 IH]; intros l2 cur H Hne.
  - simpl. rewrite split_inclusive_nl_single by (try exact H; exact Hne).
    exists [rev ("010"%char :: cur)]. reflexivity.
  - simpl. destruct (Ascii.eqb c "010"%char).
    + destruct (IH l2 [] H Hne) as [X HX]. rewrite HX.
      exists (rev (c :: cur) :: X). reflexivity.
    + apply IH; assumption.
Qed.

Lemma strip_nl_none : forall l,
  Forall (fun c => Ascii.eqb c "010"%char = false) l ->
  strip_suffix_char "010"%char l = None.
Proof.
  intros l H. unfold strip_suffix_char.
  destruct (rev l) as [|d r] eqn:E; [reflexivity|].
  assert (Hd : In d l) by (apply in_rev; rewrite E; left; reflexivity).
  rewrite Forall_forall in H. rewrite Ascii.eqb_sym, (H d Hd). reflexivity.
Qed.

Lemma lines_last : forall pre body,
  body <> EmptyString ->
  Forall (fun c => Ascii.eqb c "010"%char = false) (list_ascii_of_string body) ->
  last_opt (lines (pre ++ String "010"%char body)) = Some body.
Proof.
  intros pre body Hne H. unfold lines.
  rewrite list_ascii_of_string_app.
  change (list_ascii_of_string (String "010"%char body))
    with ("010"%char :: list_ascii_of_string body).
  destruct (split_inclusive_nl_last (list_ascii_of_string pre)
              (list_ascii_of_string body) [] H) as [X ->].
  { destruct body; [congruence | discriminate]. }
  rewrite map_app. cbn [map]. rewrite last_opt_snoc.
  rewrite strip_nl_none by exact H. rewrite string_of_list_ascii_of_string.
  reflexivity.
Qed.

Lemma spaces_Forall : forall k, Forall (fun c => c = " "%char) (list_ascii_of_string (spaces k)).
Proof. induction k; simpl; constructor; auto. Qed.

Lemma split_ws_spaces : forall k l,
  split_ws_aux [] (list_ascii_of_string (spaces k) ++ l) = split_ws_aux [] l.
Proof. induction k as [|k IH]; intros l; [reflexivity|]. simpl. apply IH. Qed.

Lemma trim_id_ends : forall c x d,
  is_whitespace c = false -> is_whitespace d = false ->
  trim (String c (x ++ String d EmptyString)) = String c (x ++ String d EmptyString).
Proof.
  intros c x d Hc Hd. unfold trim.
  rewrite <- (string_of_list_ascii_of_string (String c (x ++ String d EmptyString))).
  apply trim_matches_id.
  - simpl. exact Hc.
  - change (list_ascii_of_string (String c (x ++ String d EmptyString)))
      with (c :: list_ascii_of_string (x ++ String d EmptyString)).
    rewrite list_ascii_of_string_app, app_comm_cons, rev_app_distr. simpl. exact Hd.
Qed.

Lemma mono_words : forall raw v db sw,
  (raw <= u32_max)%N -> (v <= u32_max)%N -> no_ws db -> (sw = "on" \/ sw = "off") ->
  Forall (fun w => w <> EmptyString /\ no_ws w)
    ["Mono:"; "Playback"; u32_to_string raw; "[" ++ u32_to_string v ++ "%]";
     "[" ++ db ++ "dB]"; "[" ++ sw ++ "]"].
Proof.
  intros raw v db sw Hr Hv Hdb Hsw.
  pose proof (u32_to_string_chars raw Hr) as Cr.
  pose proof (u32_to_string_chars v Hv) as Cv.
  assert (Wr : no_ws (u32_to_string raw)) by (eapply Forall_impl; [|exact Cr]; cbv beta; tauto).
  assert (Wv : no_ws (u32_to_string v)) by (eapply Forall_impl; [|exact Cv]; cbv beta; tauto).
  unfold no_ws in *.
  constructor; [split; [discriminate | repeat constructor]|].
  constructor; [split; [discriminate | repeat constructor]|].
  constructor; [split; [apply (proj2 (proj2 (u32_to_string_spec raw Hr))) | exact Wr]|].
  constructor.
  { split; [discriminate|].
    change (list_ascii_of_string ("[" ++ u32_to_string v ++ "%]"))
      with ("["%char :: list_ascii_of_string (u32_to_string v ++ "%]")).
    rewrite list_ascii_of_string_app. constructor; [reflexivity|].
    apply Forall_app; split; [exact Wv | repeat constructor]. }
  constructor.
  { split; [discriminate|].
    change (list_ascii_of_string ("[" ++ db ++ "dB]"))
      with ("["%char :: list_ascii_of_string (db ++ "dB]")).
    rewrite list_ascii_of_string_app. constructor; [reflexivity|].
    apply Forall_app; split; [exact Hdb | repeat constructor]. }
  constructor; [|constructor].
  destruct Hsw as [-> | ->]; (split; [discriminate | repeat constructor]).
Qed.

Lemma filtered_tokens_mono : forall k raw v db sw,
  (raw <= u32_max)%N -> (v <= u32_max)%N -> no_ws db -> (sw = "on" \/ sw = "off") ->
  filtered_tokens (spaces k ++ amixer_mono_line raw v db sw) = [u32_to_string v; sw].
Proof.
  intros k raw v db sw Hr Hv Hdb Hsw.
  unfold filtered_tokens, split_whitespace.
  rewrite list_ascii_of_string_app, split_ws_spaces.
  fold (split_whitespace (amixer_mono_line raw v db sw)).
  unfold amixer_mono_line. rewrite split_whitespace_join by (apply mono_words; assumption).
  pose proof (u32_to_string_chars raw Hr) as Cr.
  pose proof (u32_to_string_chars v Hv) as Cv.
  destruct (u32_to_string_spec v Hv) as (_ & Dv & Nv).
  assert (B1 : bracket_token (u32_to_string raw) = false).
  { destruct (u32_to_string raw) as [|c r]; [reflexivity|].
    inversion Cr as [|? ? Hc _]; subst. unfold bracket_token, starts_with.
    rewrite (filter_not_lbracket c) by tauto. reflexivity. }
  assert (B2 : bracket_token ("[" ++ u32_to_string v ++ "%]") = true).
  { unfold bracket_token. rewrite contains_dB_no_d; [reflexivity|].
    change (list_ascii_of_string ("[" ++ u32_to_string v ++ "%]"))
      with ("["%char :: list_ascii_of_string (u32_to_string v ++ "%]")).
    rewrite list_ascii_of_string_app. constructor; [reflexivity|].
    apply Forall_app; split; [|repeat constructor].
    eapply Forall_impl; [|exact Cv]. intros c Hc. cbv beta in Hc |- *. apply digit_not_d. apply Hc. }
  assert (B3 : bracket_token ("[" ++ db ++ "dB]") = false).
  { unfold bracket_token.
    replace ("[" ++ db ++ "dB]") with (("[" ++ db) ++ "dB" ++ "]")
      by (rewrite string_app_assoc; reflexivity).
    rewrite contains_app. apply andb_false_r. }
  cbn [filter]. rewrite B1, B2, B3.
  replace (bracket_token "Mono:") with false by reflexivity.
  replace (bracket_token "Playback") with false by reflexivity.
  destruct Hsw as [-> | ->];
    [replace (bracket_token ("[" ++ "on" ++ "]")) with true by reflexivity
    |replace (bracket_token ("[" ++ "off" ++ "]")) with true by reflexivity];
    cbn [map];
    rewrite trim_filter_percent_token by assumption; reflexivity.
Qed.

Lemma amixer_mono_line_snoc : forall raw v db sw,
  amixer_mono_line raw v db sw =
  join_ws ["Mono:"; "Playback"; u32_to_string raw;
           "[" ++ u32_to_string v ++ "%]"; "[" ++ db ++ "dB]"] ++ " " ++ ("[" ++ sw ++ "]").
Proof.
  intros. unfold amixer_mono_line.
  exact (join_ws_snoc ["Mono:"; "Playback"; u32_to_string raw;
           "[" ++ u32_to_string v ++ "%]"; "[" ++ db ++ "dB]"] _ ltac:(discriminate)).
Qed.

(** X2: whatever header precedes it, when the last line of the [amixer]
    output is an indented mono line "Mono: Playback R [V%] [DdB] [on|off]"
    (R and V u32 values in decimal, D without whitespace), [get_info]
    succeeds, stores V as the volume, sets [muted] exactly for "off", and
    leaves the JACK flags as the server probe set them. *)
Theorem get_info_mono_line : forall env d c pre k raw v db sw,
  is_whitespace c = false ->
  (raw <= u32_max)%N -> (v <= u32_max)%N -> no_ws db -> (sw = "on" \/ sw = "off") ->
  env.(amixer_get) d.(name) =
    Some (String c pre ++ String "010"%char (spaces k ++ amixer_mono_line raw v db sw)) ->
  get_info env d = (set_muted (String.eqb sw "off") (set_volume v (probe env d)), Ok tt).
Proof.
  intros env d c pre k raw v db sw Hc Hr Hv Hdb Hsw Henv.
  rewrite get_info_eq', Henv. unfold mixer_info. cbn [option_map].
  set (body := spaces k ++ amixer_mono_line raw v db sw).
  assert (Ht : trim (String c pre ++ String "010"%char body)
               = String c pre ++ String "010"%char body).
  { assert (E : String c pre ++ String "010"%char body =
                String c ((pre ++ String "010"%char (spaces k ++
                  join_ws ["Mono:"; "Playback"; u32_to_string raw;
                           "[" ++ u32_to_string v ++ "%]"; "[" ++ db ++ "dB]"]
                  ++ " [" ++ sw)) ++ String "]" EmptyString)).
    { unfold body. rewrite amixer_mono_line_snoc.
      change (String c pre ++ ?x) with (String c (pre ++ x)). f_equal.
      rewrite string_app_assoc. f_equal.
      change (String "010"%char ?y ++ ?z) with (String "010"%char (y ++ z)). f_equal.
      rewrite !string_app_assoc. reflexivity. }
    rewrite E. apply trim_id_ends; [exact Hc | reflexivity]. }
  rewrite Ht.
  assert (Hl : last_opt (lines (String c pre ++ String "010"%char body)) = Some body).
  { apply lines_last.
    - unfold body. destruct (spaces k); discriminate.
    - unfold body. rewrite list_ascii_of_string_app. apply Forall_app; split.
      + eapply Forall_impl; [|apply spaces_Forall]. intros a ->. reflexivity.
      + apply join_ws_Forall; [reflexivity|].
        eapply Forall_impl; [|apply mono_words; eassumption].
        intros w [_ Hw]. eapply Forall_impl; [|exact Hw]. apply ws_not_nl. }
  rewrite Hl.
  unfold body. rewrite filtered_tokens_mono by assumption. cbn [nth_error].
  destruct (u32_to_string_spec v Hv) as (Vv & Dv & Nv).
  rewrite parse_u32_dec by (try rewrite Vv; assumption). rewrite Vv. reflexivity.
Qed.

Lemma get_info_mono_line_witness :
  let env := mkEnv None (fun _ =>
    Some (String "S" "imple mixer control 'Master',0" ++
          String "010"%char (spaces 2 ++ amixer_mono_line 50 80 "-20.00" "on"))) in
  get_info env dev0 = (set_muted false (set_volume 80 (probe env dev0)), Ok tt).
Proof.
  intros env. apply (get_info_mono_line env dev0 "S" "imple mixer control 'Master',0" 2 50 80 "-20.00" "on").
  - reflexivity.
  - vm_compute. discriminate.
  - vm_compute. discriminate.
  - repeat constructor.
  - left. reflexivity.
  - reflexivity.
Defined.

(** ** Theorems on [Jack::display] and [Block::update] *)

(** X3: for an unmuted mixer reading of volume [v], [display] succeeds
    without consulting the icon configuration: the icon is chosen by the
    volume ranges 0..=20, 21..=70 and above, the state is [Idle], and the
    text is "ALSA vv% " without a JACK server, and otherwise "JACK vv% "
    followed by the recording icon when the capture port exists and by
    the play or stop icon as the transport rolls or not. *)
Theorem display_unmuted : forall env config j w v,
  mixer_info (env.(amixer_get) j.(device).(name)) = Ok (v, false) ->
  display env config j w =
  (mkJack j.(id) (set_muted false (set_volume v (probe env j.(device))))
     j.(show_volume_when_muted),
   mkTextWidget (volume_icon v)
     (match env.(client_new) with
      | None => "ALSA " ++ fmt02 v ++ "% "
      | Some c =>
          "JACK " ++ fmt02 v ++ "% " ++
          (match port_by_name c "jack_capture:input1" with
           | Some _ => REC_ICON | None => "" end) ++
          (if N.eqb (jack_transport_query c) JackTransportRolling
           then PLAY_ICON else STOP_ICON)
      end) Idle,
   Ok tt).
Proof.
  intros env config j w v H. unfold display. rewrite get_info_eq', H.
  unfold probe. destruct (client_new env) as [c|].
  - destruct (port_by_name c "jack_capture:input1");
      destruct (N.eqb (jack_transport_query c) JackTransportRolling); reflexivity.
  - reflexivity.
Qed.

Lemma display_unmuted_witness :
  let env := env_amixer "Mono: Playback 50 [80%] [on]" None in
  let j := mkJack "id" dev0 false in
  let w := mkTextWidget "volume_empty" "" Info in
  display env (mkConfig (fun _ => None)) j w =
  (mkJack "id" (set_muted false (set_volume 80 (probe env dev0))) false,
   mkTextWidget (volume_icon 80) ("ALSA " ++ fmt02 80 ++ "% ") Idle, Ok tt).
Proof.
  intros env j w.
  exact (display_unmuted env (mkConfig (fun _ => None)) j w 80 eq_refl).
Defined.

(** X4: for a muted mixer reading of volume [v], [display] sets the icon to
    "volume_empty"; when the configuration has no "volume_muted" icon it
    fails with "cannot find icon", text and state left as they were;
    otherwise the text is that icon, followed by " vv%" when
    [show_volume_when_muted] is set, and the state is [Warning]. *)
Theorem display_muted : forall env config j w v,
  mixer_info (env.(amixer_get) j.(device).(name)) = Ok (v, true) ->
  let j' := mkJack j.(id) (set_muted true (set_volume v (probe env j.(device))))
              j.(show_volume_when_muted) in
  display env config j w =
  match config.(icons) "volume_muted" with
  | None =>
      (j', mkTextWidget "volume_empty" w.(w_text) w.(w_state),
       Err (BlockError "sound" "cannot find icon"))
  | Some icon =>
      (j', mkTextWidget "volume_empty"
             (if j.(show_volume_when_muted) then icon ++ " " ++ fmt02 v ++ "%"
              else icon) Warning,
       Ok tt)
  end.
Proof.
  intros env config j w v H j'. unfold display. rewrite get_info_eq', H.
  destruct (icons config "volume_muted"); [|reflexivity].
  destruct (show_volume_when_muted j); reflexivity.
Qed.

Lemma display_muted_witness :
  let env := env_amixer "Mono: Playback 0 [7%] [off]" None in
  let j := mkJack "id" dev0 true in
  let w := mkTextWidget "volume_full" "old" Idle in
  let j' := mkJack "id" (set_muted true (set_volume 7 (probe env dev0))) true in
  display env (mkConfig (fun _ => Some "M")) j w =
  (j', mkTextWidget "volume_empty" ("M" ++ " " ++ fmt02 7 ++ "%") Warning, Ok tt) /\
  display env (mkConfig (fun _ => None)) j w =
  (j', mkTextWidget "volume_empty" "old" Idle, Err (BlockError "sound" "cannot find icon")).
Proof.
  intros env j w j'. split.
  - exact (display_muted env (mkConfig (fun _ => Some "M")) j w 7 eq_refl).
  - exact (display_muted env (mkConfig (fun _ => None)) j w 7 eq_refl).
Defined.

(** X5: [Block::update] never asks for a polling interval: its result is
    never [Ok(Some _)], and it is [Ok(None)] exactly when the refresh of the
    device succeeds and, for a muted device, the "volume_muted" icon is
    configured. *)
Theorem block_update_result : forall env config j w,
  (forall d, snd (block_update env config j w) <> Ok (Some d)) /\
  (snd (block_update env config j w) = Ok None <->
   snd (get_info env j.(device)) = Ok tt /\
   ((fst (get_info env j.(device))).(muted) = true ->
    config.(icons) "volume_muted" <> None)).
Proof.
  intros env config j w. unfold block_update, display.
  destruct (get_info env (device j)) as [dev [[]|e]]; cbn [fst snd].
  - destruct (muted dev).
    + destruct (icons config "volume_muted"); cbn [snd];
        (split; [intros d; discriminate|]).
      * split; [intros _; split; [reflexivity | intros _; discriminate] |
                intros _; reflexivity].
      * split; [intros E; discriminate | intros [_ H]; exfalso; apply (H eq_refl); reflexivity].
    + cbn [snd]. split; [intros d; discriminate|].
      split; [intros _; split; [reflexivity | intros E; discriminate] |
              intros _; reflexivity].
  - split; [intros d; discriminate|].
    split; [intros E; discriminate | intros [H _]; discriminate].
Qed.

(** X6: a successful refresh overwrites the whole snapshot: its result
    depends on the previous device only through its name. *)
Theorem get_info_success_overwrites : forall env d1 d2,
  d1.(name) = d2.(name) -> snd (get_info env d1) = Ok tt ->
  get_info env d1 = get_info env d2.
Proof.
  intros env d1 d2 Hn H. rewrite !get_info_eq' in *. rewrite <- Hn.
  destruct (mixer_info (amixer_get env (name d1))) as [[v m]|e]; [|discriminate].
  destruct d1, d2. cbn in Hn. subst. unfold probe.
  destruct (client_new env) as [c|]; [destruct (port_by_name c "jack_capture:input1")|];
    reflexivity.
Qed.

Lemma get_info_success_overwrites_witness :
  let env := env_amixer "Mono: Playback 50 [80%] [on]" None in
  get_info env dev0 = get_info env (mkJackSoundDevice "Master" 0 false false false false).
Proof.
  intros env. apply get_info_success_overwrites; reflexivity.
Defined.

(** ** Theorems on [Jack::new] and the block's id *)

(** X7: [Jack::new] reads the device named in the configuration, "Master"
    by default; it fails exactly when the first refresh of a zeroed device
    of that name fails, with that error and without starting a watcher;
    otherwise the block holds the refreshed device, under that name, with
    the configured [show_volume_when_muted]. *)
Theorem Jack_new_device : forall block_name show uuid env menv,
  let nm := match block_name with Some n => n | None => "Master" end in
  let d0 := mkJackSoundDevice nm 0 false false false false in
  match Jack_new block_name show uuid env menv with
  | Ok (j, trs) =>
      snd (get_info env d0) = Ok tt /\ j.(device) = fst (get_info env d0) /\
      j.(device).(name) = nm /\ j.(show_volume_when_muted) = show /\
      trs = monitor j.(id) menv
  | Err e => snd (get_info env d0) = Err e
  end.
Proof.
  intros block_name show uuid env menv nm d0.
  unfold Jack_new, JackSoundDevice_new. fold nm. fold d0.
  pose proof (get_info_eq' env d0) as G.
  destruct (get_info env d0) as [dev [[]|e]] eqn:E; cbn [fst snd]; [|reflexivity].
  split; [reflexivity|]. split; [reflexivity|]. split; [|split; reflexivity].
  destruct (mixer_info (amixer_get env (name d0))) as [[v m]|e];
    [|discriminate]. injection G as G; subst dev. cbn. rewrite probe_name. reflexivity.
Qed.

Lemma hex_digit_lower : forall k, (0 <= k < 16)%Z -> is_lower_hex (hex_digit k) = true.
Proof.
  intros k Hk.
  assert (k = 0 \/ k = 1 \/ k = 2 \/ k = 3 \/ k = 4 \/ k = 5 \/ k = 6 \/ k = 7 \/
          k = 8 \/ k = 9 \/ k = 10 \/ k = 11 \/ k = 12 \/ k = 13 \/ k = 14 \/ k = 15)%Z
    as Hc by lia.
  repeat destruct Hc as [-> | Hc]; [..| subst k]; reflexivity.
Qed.

Lemma hex_acc_shape : forall n u acc,
  String.length (hex_acc n u acc) = (n + String.length acc)%nat /\
  (Forall (fun c => is_lower_hex c = true) (list_ascii_of_string acc) ->
   Forall (fun c => is_lower_hex c = true) (list_ascii_of_string (hex_acc n u acc))).
Proof.
  induction n as [|n IH]; intros u acc; [split; auto|].
  cbn [hex_acc]. destruct (IH (u / 16)%Z (String (hex_digit (u mod 16)) acc)) as [L F].
  split.
  - rewrite L. simpl. lia.
  - intros H. apply F. simpl. constructor; [|exact H].
    apply hex_digit_lower. apply Z.mod_pos_bound. lia.
Qed.

(** X8: the block id, [Uuid::to_simple().to_string()], is always 32
    characters long, each a lowercase hexadecimal digit. *)
Theorem uuid_simple_shape : forall u,
  String.length (uuid_simple u) = 32%nat /\
  Forall (fun c => is_lower_hex c = true) (list_ascii_of_string (uuid_simple u)).
Proof.
  intros u. destruct (hex_acc_shape 32 u EmptyString) as [L F].
  split; [exact L | apply F; constructor].
Qed.

(** ** Theorems on the amixer token filter *)

(** X9: a whitespace-free token containing "dB" never reaches the vector
    the volume and mute flag are read from: inserting one between two
    tokens of the last line leaves that vector unchanged. *)
Theorem filtered_tokens_skip_dB : forall a t b,
  no_ws t -> contains "dB" t = true ->
  filtered_tokens (a ++ " " ++ t ++ " " ++ b) = filtered_tokens (a ++ " " ++ b).
Proof.
  intros a t b Ht Hd. unfold filtered_tokens, split_whitespace.
  rewrite !list_ascii_of_string_app.
  change (list_ascii_of_string " ") with [" "%char]. cbn [app].
  rewrite !split_ws_app by reflexivity.
  rewrite (split_ws_word (list_ascii_of_string t) []) by exact Ht. simpl (rev []).
  simpl app at 1.
  assert (Hne : list_ascii_of_string t <> []).
  { destruct t; [discriminate | discriminate]. }
  rewrite match_word by exact Hne. rewrite string_of_list_ascii_of_string.
  rewrite !filter_app. cbn [filter].
  replace (bracket_token t) with false
    by (unfold bracket_token; rewrite Hd, andb_false_r; reflexivity).
  reflexivity.
Qed.

Lemma filtered_tokens_skip_dB_witness :
  filtered_tokens ("Mono: Playback 50" ++ " " ++ "[-20.00dB]" ++ " " ++ "[80%] [on]")
  = filtered_tokens ("Mono: Playback 50" ++ " " ++ "[80%] [on]").
Proof.
  apply filtered_tokens_skip_dB; [repeat constructor | reflexivity].
Defined.

(** ** Theorems on the listener threads of [monitor] *)

Lemma spaced_weaken : forall gap lo lo' l,
  (lo' <= lo)%Z -> spaced gap lo l -> spaced gap lo' l.
Proof.
  intros gap lo lo' [|t l] Hle H; [exact I|]. destruct H as [H1 H2].
  split; [lia | exact H2].
Qed.

Lemma alsa_loop_shape : forall id0 rx obs,
  send_then_sleep (alsa_loop id0 rx obs) /\ panic_is_last (alsa_loop id0 rx obs) = true /\
  ((forall t, rx t = true) -> has_panic (alsa_loop id0 rx obs) = false).
Proof.
  intros id0 rx obs. induction obs as [|o obs IH]; [repeat split; auto|].
  destruct IH as (IH1 & IH2 & IH3).
  cbn [alsa_loop]. unfold alsa_iteration.
  destruct (is_ok (read_result o)); [destruct (rx (read_at o)) eqn:R|]; cbn.
  - repeat split; auto.
  - repeat split; auto. intros Hr. rewrite Hr in R. discriminate.
  - repeat split; auto.
Qed.

Lemma dbus_loop_shape : forall id2 rx fuel now q,
  let acts := fst (dbus_loop id2 rx fuel now q) in
  spaced 250 now (send_times acts) /\ send_then_sleep acts /\
  panic_is_last acts = true /\ ((forall t, rx t = true) -> has_panic acts = false).
Proof.
  intros id2 rx fuel. induction fuel as [|f IH]; intros now q acts;
    [subst acts; repeat split; auto|].
  subst acts. cbn [dbus_loop]. unfold dbus_iteration, incoming_next.
  assert (Hq : duration_ms quarter_second = 250%Z) by reflexivity.
  destruct q as [|a rest]; [|destruct (a <=? now + 1000)%Z; [destruct (rx (Z.max now a)) eqn:R|]];
  cbn [fst snd];
  match goal with
  | |- context [dbus_loop id2 rx f ?n ?q'] =>
      destruct (dbus_loop id2 rx f n q') as [acts' r] eqn:E;
      destruct (IH n q') as (S1 & S2 & S3 & S4);
      rewrite E in S1, S2, S3, S4; cbn [fst] in *; rewrite Hq in *
  | _ => idtac
  end;
  cbn [send_times send_then_sleep panic_is_last has_panic app fst];
  repeat split; auto;
  try (eapply spaced_weaken; [|exact S1]; lia);
  try (split; [lia | exact S1]);
  try (destruct acts'; reflexivity);
  try (intros Hr; rewrite Hr in R; discriminate);
  cbn [Scheduler.update_time]; lia.
Qed.

(** X10: the session-bus watcher never dates a request before the loop
    starts, and dates each request at least 250 ms after the one before. *)
Theorem dbus_requests_spaced : forall id2 rx fuel now q,
  spaced 250 now (send_times (fst (dbus_loop id2 rx fuel now q))).
Proof. intros. apply dbus_loop_shape. Qed.

(** X11: in the traces of both listener threads, every request is
    immediately followed by a 250 ms sleep, and nothing follows a panic. *)
Theorem monitor_trace_shape : forall id menv,
  send_then_sleep (fst (monitor id menv)) /\ send_then_sleep (snd (monitor id menv)) /\
  panic_is_last (fst (monitor id menv)) = true /\
  panic_is_last (snd (monitor id menv)) = true.
Proof.
  intros id menv. unfold monitor, alsa_thread, dbus_thread. cbn [fst snd].
  destruct (alsactl_spawned menv), (bus_ok menv);
    repeat split; cbn; try reflexivity; try apply alsa_loop_shape;
    try apply dbus_loop_shape; try exact I.
Qed.

(** X12: neither listener thread panics when alsactl started, the session
    bus was reached, and the update channel's receiver stays alive. *)
Theorem monitor_no_panic : forall id menv,
  menv.(alsactl_spawned) = true -> menv.(bus_ok) = true ->
  (forall t, menv.(rx_alive) t = true) ->
  has_panic (fst (monitor id menv)) = false /\ has_panic (snd (monitor id menv)) = false.
Proof.
  intros id menv Ha Hb Hr. unfold monitor, alsa_thread, dbus_thread. cbn [fst snd].
  rewrite Ha, Hb. split; [apply alsa_loop_shape | apply dbus_loop_shape]; exact Hr.
Qed.

Lemma monitor_no_panic_witness :
  let menv := mkMonitorEnv (fun _ => true) true
                [mkAlsaObs (ReadOk 3) 10; mkAlsaObs ReadErr 300] true 3 0 [5%Z; 6%Z; 2000%Z] in
  has_panic (fst (monitor "id" menv)) = false /\ has_panic (snd (monitor "id" menv)) = false.
Proof.
  intros menv. apply monitor_no_panic; [reflexivity | reflexivity | intros t; reflexivity].
Defined.
